(** * OpenPNM: the tree visualizer page and the transient-diffusion walkthrough

    A shallow embedding of the D3 page script that draws a pore/throat
    hierarchy, and of the output-time bookkeeping of the transient Fickian
    diffusion run shown in the tutorial notebook.

    JavaScript strings are [string]; [undefined] is [None]; the DOM is a
    tree of [element]s; D3 selections are lists of elements paired with
    their bound datum; JavaScript numbers produced by the tree layout are
    kept abstract (a type [num] with its arithmetic and its conversion to
    text), since every formula of the script uses them parametrically. *)

From stdpp Require Import gmap strings list pretty.
From Stdlib Require Import Ascii ZArith Lia.

Local Open Scope Z_scope.
Set Warnings "-register-all".

(** ** JavaScript string primitives used by the script *)

Module JS.

(** [s.substring(n)]: the string without its first [n] characters. *)
Fixpoint substring (n : nat) (s : string) : string :=
  match n, s with
  | O, _ => s
  | S _, EmptyString => EmptyString
  | S n', String _ s' => substring n' s'
  end.

(** [s.split(sep)] for a separator of one character, which is how the
    script calls it (["="] and ['.']).  The empty string splits into one
    empty token. *)
Fixpoint split (sep : ascii) (s : string) : list string :=
  match s with
  | EmptyString => [EmptyString]
  | String c s' =>
      if Ascii.eqb c sep then EmptyString :: split sep s'
      else match split sep s' with
           | tok :: rest => String c tok :: rest
           | [] => [String c EmptyString]
           end
  end.

(** [s.startsWith(p)]. *)
Definition startsWith (s p : string) : bool := String.prefix p s.

(** [a[i]]: [undefined] out of range. *)
Definition index {A} (a : list A) (i : nat) : option A := a !! i.

End JS.

(** ** The query string *)

(** [window.location.search.substring(1).split("=")[1]] *)
Definition file (search : string) : option string :=
  JS.index (JS.split "=" (JS.substring 1 search)) 1.

(** The address the script passes to [d3.json]. *)
Definition tree_url : string := "http://localhost:8008/data/tree.json".

(** ** Tree data, as fetched *)

(** A node of the fetched document: [name], [color] and an optional
    [children] array ([None] when the key is absent). *)
Inductive treeData : Type :=
  TreeData (name color : string) (children : option (list treeData)).

Definition td_name (t : treeData) : string :=
  match t with TreeData n _ _ => n end.
Definition td_color (t : treeData) : string :=
  match t with TreeData _ c _ => c end.
Definition td_children (t : treeData) : option (list treeData) :=
  match t with TreeData _ _ ch => ch end.

(** The seven symbol types of d3-shape; the script names two of them. *)
Inductive symbolType : Type :=
  | symbolCircle | symbolCross | symbolDiamond | symbolSquare
  | symbolStar | symbolTriangle | symbolWye.

(** The accessor given to [d3.symbol().type(...)]: a function with no
    final [else], so it returns [undefined] for any other name. *)
Definition symbol_type (d : treeData) : option symbolType :=
  if JS.startsWith (td_name d) "pore" then Some symbolCircle
  else if JS.startsWith (td_name d) "throat" then Some symbolSquare
  else None.

(** The function given to [.text(...)]: [(d.data.name).split('.')[1]]. *)
Definition label (d : treeData) : option string :=
  JS.index (JS.split "." (td_name d)) 1.

(** ** The hierarchy built by [d3.hierarchy] *)

(** A hierarchy node: the datum it wraps, its depth and height, its
    position (set by the layout) and its [children] array, which D3 leaves
    undefined unless the accessor returned a non-empty array.  The [parent]
    link is carried by [hnode] below. *)
Inductive Node (P : Type) : Type :=
  MkNode { data : treeData;
           depth : nat;
           height : nat;
           pos : P;
           children : option (list (Node P)) }.
Arguments MkNode {P} _ _ _ _ _.
Arguments data {P} _.
Arguments depth {P} _.
Arguments height {P} _.
Arguments pos {P} _.
Arguments children {P} _.

(** [d3.hierarchy(treeData, function(d) { return d.children; })]: a node
    gets a [children] array only when [d.children] is truthy and has a
    non-zero length. *)
Fixpoint hierarchy_from (dp : nat) (d : treeData) : Node unit :=
  match d with
  | TreeData _ _ ch =>
      match ch with
      | Some ((_ :: _) as l) =>
          let kids := List.map (hierarchy_from (S dp)) l in
          MkNode d dp (S (max_list (List.map height kids))) tt (Some kids)
      | _ => MkNode d dp 0 tt None
      end
  end.

Definition hierarchy (d : treeData) : Node unit := hierarchy_from 0 d.

(** Number of nodes of the fetched document. *)
Fixpoint td_size (d : treeData) : nat :=
  match d with
  | TreeData _ _ ch =>
      match ch with
      | Some l => S (sum_list (List.map td_size l))
      | None => 1%nat
      end
  end.

(** A node as the callbacks see it: the node and its [parent] ([None] is
    the root's [null]). *)
Record hnode (P : Type) : Type :=
  HNode { this : Node P; parent : option (Node P) }.
Arguments HNode {P} _ _.
Arguments this {P} _.
Arguments parent {P} _.

Section Traversal.
Context {P : Type}.

(** Length of the longest downward path, as the structure has it. *)
Fixpoint rank (n : Node P) : nat :=
  match n with
  | MkNode _ _ _ _ ch =>
      match ch with
      | Some l => S (max_list (List.map rank l))
      | None => O
      end
  end.

(** Number of nodes below and including [n]. *)
Fixpoint node_count (n : Node P) : nat :=
  match n with
  | MkNode _ _ _ _ ch =>
      match ch with
      | Some l => S (sum_list (List.map node_count l))
      | None => 1%nat
      end
  end.

Definition kids_of (e : hnode P) : list (hnode P) :=
  match children (this e) with
  | Some l => List.map (fun c => HNode c (Some (this e))) l
  | None => []
  end.

(** The loop of [node.each]: visit every node of [next] in order while
    collecting their children, and go on with the collected children
    while there are any (breadth-first order).  [None]: out of fuel. *)
Fixpoint each_loop (fuel : nat) (next : list (hnode P))
  : option (list (hnode P)) :=
  match fuel with
  | O => None
  | S fuel' =>
      match flat_map kids_of next with
      | [] => Some next
      | next' => option_map (app next) (each_loop fuel' next')
      end
  end.

(** [root.descendants()] *)
Definition descendants (root : Node P) : option (list (hnode P)) :=
  each_loop (S (rank root)) [HNode root None].

(** [a.slice(1)] *)
Definition slice1 {A} (a : list A) : list A := drop 1 a.

End Traversal.

(** ** The document *)

(** An element: tag, attributes, inline style properties, text content
    and child elements. *)
Inductive element : Type :=
  Element { tag : string;
            attrs : gmap string string;
            styles : gmap string string;
            textContent : string;
            childNodes : list element }.

Definition createElement (t : string) : element := Element t ∅ ∅ "" [].

Definition setAttribute (k v : string) (e : element) : element :=
  Element (tag e) (<[k:=v]> (attrs e)) (styles e) (textContent e) (childNodes e).

(** Whether a style value parses, for the values the script sets: a
    value that starts with [#] is a colour, for [fill] and [stroke] only
    and only with 3, 4, 6 or 8 hex digits (white space may follow; CSS
    escapes and comments are not read); the other values the script sets
    are its own constants ([black], [3]), which parse. *)
Definition is_hex_digit (c : ascii) : bool :=
  let n := nat_of_ascii c in
  (48 <=? n)%nat && (n <=? 57)%nat
  || (65 <=? n)%nat && (n <=? 70)%nat
  || (97 <=? n)%nat && (n <=? 102)%nat.

Definition is_space (c : ascii) : bool :=
  let n := nat_of_ascii c in
  (n =? 32)%nat || (n =? 9)%nat || (n =? 10)%nat || (n =? 12)%nat
  || (n =? 13)%nat.

Fixpoint all_chars (f : ascii -> bool) (s : string) : bool :=
  match s with
  | EmptyString => true
  | String c s' => f c && all_chars f s'
  end.

Fixpoint strip_right (s : string) : string :=
  match s with
  | EmptyString => EmptyString
  | String c s' => if all_chars is_space s then EmptyString
                   else String c (strip_right s')
  end.

Definition hex_color (h : string) : bool :=
  all_chars is_hex_digit h
  && bool_decide (String.length h ∈ [3; 4; 6; 8]%nat).

Definition css_parses (k v : string) : bool :=
  match v with
  | String "#" h =>
      (String.eqb k "fill" || String.eqb k "stroke")
      && hex_color (strip_right h)
  | _ => true
  end.

(** [style.setProperty(k, v)]: a value that does not parse is dropped. *)
Definition setProperty (k v : string) (e : element) : element :=
  Element (tag e) (attrs e)
    (if css_parses k v then <[k:=v]> (styles e) else styles e)
    (textContent e) (childNodes e).

Definition setText (v : string) (e : element) : element :=
  Element (tag e) (attrs e) (styles e) v (childNodes e).

Definition appendChild (c : element) (e : element) : element :=
  Element (tag e) (attrs e) (styles e) (textContent e) (childNodes e ++ [c]).

Definition appendChildren (cs : list element) (e : element) : element :=
  Element (tag e) (attrs e) (styles e) (textContent e) (childNodes e ++ cs).

(** What the callback can raise: the fetch error it is handed, or the
    TypeError of reading a property of [undefined] or [null]. *)
Inductive js_error : Type :=
  | XhrError (status : Z)
  | ParseError (msg : string).

Inductive exn : Type :=
  | Thrown (e : js_error)
  | TypeError (what : string).

(** What [d3.json] hands to its callback: [(error)], an object and so
    truthy in [if (error)], or [(null, data)]. *)
Inductive response : Type :=
  | Failed (error : js_error)
  | Loaded (treeData : treeData).

(** ** Selections *)

(** A selection after a data join: every element with its bound datum. *)
Definition selection (D : Type) : Type := list (D * element).

Section Selection.
Context {D : Type}.

(** [.data(a).enter().append(tag)] on an empty selection, and
    [sel.append(tag)]: one fresh element per datum. *)
Definition enter_append (t : string) (a : list D) : selection D :=
  List.map (fun d => (d, createElement t)) a.

Definition sel_append (t : string) (s : selection D) : selection D :=
  enter_append t (List.map fst s).

(** [selection.each]: in order; an exception leaves the remaining
    elements as they were. *)
Fixpoint sel_each (f : D -> element -> exn + element) (s : selection D)
  : selection D * option exn :=
  match s with
  | [] => ([], None)
  | (d, e) :: rest =>
      match f d e with
      | inl err => ((d, e) :: rest, Some err)
      | inr e' =>
          let '(rest', x) := sel_each f rest in ((d, e') :: rest', x)
      end
  end.

(** [.attr(k, v)], [.style(k, v)], [.text(v)] with a function [v] that
    cannot raise; a constant is the constant function.  [.text] writes
    the empty string for [undefined]. *)
Definition sel_attr (k : string) (v : D -> string) (s : selection D)
  : selection D :=
  List.map (fun '(d, e) => (d, setAttribute k (v d) e)) s.

Definition sel_style (k : string) (v : D -> string) (s : selection D)
  : selection D :=
  List.map (fun '(d, e) => (d, setProperty k (v d) e)) s.

Definition sel_text (v : D -> option string) (s : selection D)
  : selection D :=
  List.map (fun '(d, e) => (d, setText (default "" (v d)) e)) s.

(** [.attr(k, v)] with a function that may raise. *)
Definition sel_attr_try (k : string) (v : D -> exn + string)
    (s : selection D) : selection D * option exn :=
  sel_each (fun d e => match v d with
                       | inl err => inl err
                       | inr a => inr (setAttribute k a e)
                       end) s.

Definition elements (s : selection D) : list element := List.map snd s.

(** The elements of [s] with the elements appended to them by
    [sel_append], in their current state. *)
Fixpoint adopt (s c : selection D) : selection D :=
  match s, c with
  | (d, e) :: s', (_, k) :: c' => (d, appendChild k e) :: adopt s' c'
  | _, _ => s
  end.

End Selection.

(** ** The page script *)

Record margins : Type :=
  Margins { top : Z; right : Z; bottom : Z; left : Z }.

(** [margin], [width] and the script's [height] (here [height_px]: the
    hierarchy nodes have a [height] of their own). *)
Definition margin : margins := Margins 20 90 30 20.
Definition width : Z := 3000 - left margin - right margin.
Definition height_px : Z := 1000 - top margin - bottom margin.

Section Visualizer.
(** JavaScript numbers of the layout, with the operations the script
    applies to them. *)
Context {num : Type}.
Variable num_of_Z : Z -> num.
Variable num_add : num -> num -> num.
Variable num_div : num -> num -> num.
Variable num_to_string : num -> string.

(** The layout of [d3.tree().size([h, w])]: the [(x, y)] it assigns to
    the node found at a path of child indices below the root. *)
Variable tree_layout : Z * Z -> Node unit -> list nat -> num * num.

(** The path text that d3-shape draws for a symbol type and a size. *)
Variable symbol_path : symbolType -> Z -> string.

Notation "a /. b" := (num_div a b) (at level 40, left associativity).
Notation "a +. b" := (num_add a b) (at level 50, left associativity).
Notation "'str' a" := (num_to_string a) (at level 35).

Definition x (n : Node (num * num)) : num := fst (pos n).
Definition y (n : Node (num * num)) : num := snd (pos n).

(** [treemap(nodes)]: the same nodes with [x] and [y] set. *)
Fixpoint place (size : Z * Z) (root : Node unit) (path : list nat)
    (n : Node unit) : Node (num * num) :=
  match n with
  | MkNode d dp h _ ch =>
      MkNode d dp h (tree_layout size root path)
        (match ch with
         | None => None
         | Some l =>
             Some ((fix go (i : nat) (l : list (Node unit)) :=
                      match l with
                      | [] => []
                      | c :: l' =>
                          place size root (path ++ [i]) c :: go (S i) l'
                      end) O l)
         end)
  end.

Definition treemap (root : Node unit) : Node (num * num) :=
  place (height_px, width) root [] root.

(** The function given to the links' [.attr("d", ...)]. *)
Definition link_d (d : hnode (num * num)) : exn + string :=
  match parent d with
  | None => inl (TypeError "d.parent is null")
  | Some p =>
      let two := num_of_Z 2 in
      inr ("M" +:+ str (y (this d) /. two) +:+ "," +:+ str (x (this d))
           +:+ "C" +:+ str ((y (this d) /. two +. y p /. two) /. two)
           +:+ "," +:+ str (x (this d))
           +:+ " " +:+ str ((y (this d) /. two +. y p /. two) /. two)
           +:+ "," +:+ str (x p)
           +:+ " " +:+ str (y p /. two) +:+ "," +:+ str (x p))
  end.

(** The functions given to the node groups' [class] and [transform]. *)
Definition node_class (d : hnode (num * num)) : string :=
  "node" +:+ match children (this d) with
             | Some _ => " node--internal"
             | None => " node--leaf"
             end.

Definition node_transform (d : hnode (num * num)) : string :=
  "translate(" +:+ str (y (this d) /. num_of_Z 2) +:+ ","
               +:+ str (x (this d)) +:+ ")".

(** [d3.symbol().size(250).type(...)] applied to a datum: the generator
    calls [type(d).draw(...)], which raises on [undefined]. *)
Definition symbol (d : hnode (num * num)) : exn + string :=
  match symbol_type (data (this d)) with
  | Some t => inr (symbol_path t 250)
  | None => inl (TypeError "type(d) is undefined")
  end.

Definition fill (d : hnode (num * num)) : string :=
  "#" +:+ td_color (data (this d)).

(** The body of the callback after the error check, on the list of
    descendants: the children appended to [g] and what was raised. *)
Definition draw (descs : list (hnode (num * num)))
  : list element * option exn :=
  let '(link, x1) :=
    sel_attr_try "d" link_d
      (sel_attr "class" (fun _ => "link")
         (enter_append "path" (slice1 descs))) in
  match x1 with
  | Some err => (elements link, Some err)
  | None =>
      let node :=
        sel_attr "transform" node_transform
          (sel_attr "class" node_class (enter_append "g" descs)) in
      let '(marker, x2) :=
        sel_attr_try "d" symbol
          (sel_style "stroke-width" (fun _ => pretty 3)
             (sel_style "stroke" (fun _ => "black")
                (sel_style "fill" fill (sel_append "path" node)))) in
      match x2 with
      | Some err => (elements link ++ elements (adopt node marker), Some err)
      | None =>
          let text :=
            sel_text (fun d => label (data (this d)))
              (sel_attr "x" (fun _ => pretty 20)
                 (sel_attr "dy" (fun _ => ".35em")
                    (sel_append "text" node))) in
          (elements link ++ elements (adopt (adopt node marker) text), None)
      end
  end.

(** The callback given to [d3.json], run on the group [g].
    [None]: the traversal ran out of fuel. *)
Definition callback (r : response) (g : element)
  : option (element * option exn) :=
  match r with
  | Failed error => Some (g, Some (Thrown error))
  | Loaded treeData =>
      let nodes := treemap (hierarchy treeData) in
      match descendants nodes with
      | None => None
      | Some descs =>
          let '(added, x) := draw descs in
          Some (appendChildren added g, x)
      end
  end.

(** The state of the page once the response was handled. *)
Record page : Type :=
  Page { GET : gmap string string;
         file_var : option string;
         requested : string;
         body : element;
         raised : option exn }.

Definition group0 : element :=
  setAttribute "transform"
    ("translate(" +:+ pretty (left margin) +:+ "," +:+ pretty (top margin)
                  +:+ ")")
    (createElement "g").

Definition svg_with (g : element) : element :=
  appendChild g
    (setAttribute "height" (pretty (height_px + top margin + bottom margin))
       (setAttribute "width" (pretty (width + left margin + right margin))
          (createElement "svg"))).

(** The body when the script runs: its child elements are the two
    script elements of the page, the one that loads the library and the
    script itself (its text is not represented). *)
Definition body0 : element :=
  appendChild (createElement "script")
    (appendChild
       (setAttribute "src" "https://d3js.org/d3.v4.min.js"
          (createElement "script"))
       (createElement "body")).

(** The whole script: the statements before [d3.json], the request, and
    the callback on its response.  The svg is appended to the body, after
    what the body holds. *)
Definition load (search : string) (r : response) : option page :=
  let f := file search in
  match callback r group0 with
  | None => None
  | Some (g, x) => Some (Page ∅ f tree_url (appendChild (svg_with g) body0) x)
  end.

(** The group [g] of a page: the first child of the svg, which is the
    last child of the body. *)
Definition group_of (p : page) : option element :=
  svg ← last (childNodes (body p)); childNodes svg !! O.

End Visualizer.

(** A sample instance of the parameters of the page script, for running
    it on concrete documents: whole numbers, a layout that spreads the
    nodes by depth and by child index, and symbol paths named after their
    type. *)
Module Sample.

Definition layout (size : Z * Z) (root : Node unit) (path : list nat)
  : Z * Z :=
  (Z.of_nat (sum_list path) * 40, Z.of_nat (length path) * 180).

Definition path_of (t : symbolType) (size : Z) : string :=
  match t with
  | symbolCircle => "circle"
  | symbolSquare => "square"
  | _ => "other"
  end.

Definition load : string -> response -> option page :=
  load (num:=Z) id Z.add Z.div pretty layout path_of.

Definition draw : list (hnode (Z * Z)) -> list element * option exn :=
  draw (num:=Z) id Z.add Z.div pretty path_of.

Definition treemap : Node unit -> Node (Z * Z) :=
  treemap (num:=Z) layout.

Definition callback : response -> element -> option (element * option exn) :=
  callback (num:=Z) id Z.add Z.div pretty layout path_of.

(** The document of the example scenario, its laid-out hierarchy and the
    two entries of its traversal. *)
Definition pore0 : treeData :=
  TreeData "pore.0" "ff0000" (Some [TreeData "throat.1" "0000ff" None]).

Definition nodes : Node (Z * Z) := treemap (hierarchy pore0).

Definition descs : list (hnode (Z * Z)) := default [] (descendants nodes).

Definition root : hnode (Z * Z) := HNode nodes None.

Definition leaf : hnode (Z * Z) :=
  HNode (MkNode (TreeData "throat.1" "0000ff" None) 1 0 (0, 180) None)
    (Some nodes).

(** A document whose name has two dots. *)
Definition two_dots : treeData := TreeData "pore.a.b" "ff0000" None.

(** A document whose root name has neither prefix. *)
Definition other_root : treeData :=
  TreeData "x.0" "000000" (Some [TreeData "pore.1" "ff0000" None]).

(** Its laid-out hierarchy and the two entries of its traversal. *)
Definition other_nodes : Node (Z * Z) := treemap (hierarchy other_root).

Definition other_descs : list (hnode (Z * Z)) :=
  default [] (descendants other_nodes).

Definition other_top : hnode (Z * Z) := HNode other_nodes None.

Definition other_leaf : hnode (Z * Z) :=
  HNode (MkNode (TreeData "pore.1" "ff0000" None) 1 0 (0, 180) None)
    (Some other_nodes).

End Sample.

(** ** The transient run of the notebook *)

Module Transient.

(** The network of the notebook: [Cubic(shape=[13, 29, 1])]. *)
Definition shape : list nat := [13; 29; 1]%nat.
Definition Np : nat := foldr Nat.mul 1%nat shape.

Inductive scheme : Type := implicit | cranknicolson | steady.

(** [t_output]: a scalar interval, or the listed times. *)
Inductive output : Type :=
  | Interval (dt : Z)
  | Times (ts : list Z).

Record settings : Type :=
  Settings { quantity : string;
             t_scheme : scheme;
             t_initial : Z;
             t_final : Z;
             t_output : output;
             t_step : Z }.

(** [fd.setup(t_scheme='cranknicolson', t_final=100, t_output=5,
    t_step=1, ...)], with the printed [quantity] and [t_initial]. *)
Definition notebook : settings :=
  Settings "pore.concentration" cranknicolson 0 100 (Interval 5) 1.

(** The property table printed by [print(fd)] after the run: name,
    valid values, locations. *)
Definition printed : list (string * nat * nat) :=
  [ ("pore.bc_rate", 0, 377); ("pore.bc_value", 26, 377);
    ("pore.concentration", 377, 377);
    ("pore.concentration@0", 377, 377); ("pore.concentration@10", 377, 377);
    ("pore.concentration@100", 377, 377); ("pore.concentration@15", 377, 377);
    ("pore.concentration@20", 377, 377); ("pore.concentration@25", 377, 377);
    ("pore.concentration@30", 377, 377); ("pore.concentration@35", 377, 377);
    ("pore.concentration@40", 377, 377); ("pore.concentration@45", 377, 377);
    ("pore.concentration@5", 377, 377); ("pore.concentration@50", 377, 377);
    ("pore.concentration@55", 377, 377); ("pore.concentration@60", 377, 377);
    ("pore.concentration@65", 377, 377); ("pore.concentration@70", 377, 377);
    ("pore.concentration@75", 377, 377); ("pore.concentration@80", 377, 377);
    ("pore.concentration@85", 377, 377); ("pore.concentration@90", 377, 377);
    ("pore.concentration@95", 377, 377); ("pore.ic", 377, 377) ]%nat.

(** Modelled from the spec: the key of a snapshot, the name of the
    quantity and the time after an [@], as the printed table shows it. *)
Definition key (s : settings) (t : Z) : string :=
  quantity s +:+ "@" +:+ pretty t.

(** Modelled from the spec: the output times strictly between the initial
    and the final time, every [dt] for a scalar [t_output] (none when it
    exceeds the final time), the listed ones otherwise. *)
Definition out_times (s : settings) : list Z :=
  match t_output s with
  | Interval dt =>
      if decide (0 < dt)
      then (fun k => t_initial s + Z.of_nat k * dt)
             <$> seq 1 (Z.to_nat ((t_final s - t_initial s - 1) / dt))
      else []
  | Times ts => ts
  end.

(** Modelled from the spec: the number of time steps up to the final
    time. *)
Definition steps (s : settings) : nat :=
  if decide (0 < t_step s)
  then Z.to_nat ((t_final s - t_initial s + t_step s - 1) / t_step s)
  else O.

Section Run.
(** The solved quantity has one value per pore; the solver's time step
    (for the scheme of the settings) and its steady-state test (the
    residual of two successive solutions against [t_tolerance]) are the
    library's. *)
Context {val : Type}.
Variable solve : Z -> list val -> list val.
Variable steady_reached : list val -> list val -> bool.
Variable s : settings.

(** Modelled from the spec: a time at which the march stores a snapshot:
    an output time, or the final time. *)
Definition is_out (t : Z) : bool :=
  bool_decide (t ∈ out_times s) || (t_final s <=? t).

(** Modelled from the spec: the time march of the library's transient
    [run], which is not among the sources.  At each time step it solves
    and stores a per-pore snapshot of the solved quantity if the time is
    an output time or the final time; once the tolerance is met it
    terminates early: at the next time step it stores the solution it has
    under that time and stops.  [steady] says whether the last solve met
    the tolerance. *)
Fixpoint march (n : nat) (t : Z) (x : list val) (steady : bool)
    (props : gmap string (list val))
  : list val * gmap string (list val) :=
  match n with
  | O => (x, props)
  | S n' =>
      let t' := t + t_step s in
      if steady then (x, <[key s t' := x]> props)
      else
        let x' := solve t' x in
        let props' :=
          if is_out t' then <[key s t' := x']> props else props in
        march n' t' x' (steady_reached x x') props'
  end.

(** Modelled from the spec: the library's [run], which is not among
    the sources.  With the steady scheme it solves once and stores no
    snapshot; otherwise it stores the initial condition under the initial
    time and marches.  The solved quantity itself is kept under its
    name. *)
Definition run (ic : list val) : gmap string (list val) :=
  match t_scheme s with
  | steady => <[quantity s := solve (t_initial s) ic]> ∅
  | _ =>
      let '(x, props) :=
        march (steps s) (t_initial s) ic false
          (<[key s (t_initial s) := ic]> ∅) in
      <[quantity s := x]> props
  end.

(** The quantity solved after [j] time steps from the initial
    condition. *)
Fixpoint state_at (ic : list val) (j : nat) : list val :=
  match j with
  | O => ic
  | S j' => solve (t_initial s + Z.of_nat j * t_step s) (state_at ic j')
  end.

End Run.

End Transient.

(** ** Definitions used to state the properties *)

(** The text after the first [c] of [s], if [c] occurs in [s]. *)
Fixpoint after_first (c : ascii) (s : string) : option string :=
  match s with
  | EmptyString => None
  | String a s' => if Ascii.eqb a c then Some s' else after_first c s'
  end.

(** The text of [s] before its first [c]; all of [s] if [c] does not
    occur. *)
Fixpoint up_to (c : ascii) (s : string) : string :=
  match s with
  | EmptyString => EmptyString
  | String a s' => if Ascii.eqb a c then EmptyString else String a (up_to c s')
  end.

(** [a.join(sep)] for a separator of one character: the inverse reading
    of [split]. *)
Fixpoint join (sep : ascii) (a : list string) : string :=
  match a with
  | [] => EmptyString
  | tok :: rest =>
      match rest with
      | [] => tok
      | _ :: _ => tok +:+ String sep (join sep rest)
      end
  end.

(** How many times [c] occurs in [s]. *)
Fixpoint count_char (c : ascii) (s : string) : nat :=
  match s with
  | EmptyString => O
  | String a s' => (if Ascii.eqb a c then 1 else 0) + count_char c s'
  end.

(** The [children] array of a datum as a list, empty when absent, and the
    nodes of a document [k] levels below the listed ones, left to right. *)
Definition td_kids (d : treeData) : list treeData :=
  default [] (td_children d).

Fixpoint td_level (k : nat) (ds : list treeData) : list treeData :=
  match k with
  | O => ds
  | S k' => td_level k' (flat_map td_kids ds)
  end.

(** The children of a placed node, numbered from [i]. *)
Definition place_list {num : Type}
    (tree_layout : Z * Z -> Node unit -> list nat -> num * num)
    (size : Z * Z) (root : Node unit) (path : list nat)
  : nat -> list (Node unit) -> list (Node (num * num)) :=
  fix go (i : nat) (l : list (Node unit)) :=
    match l with
    | [] => []
    | c :: l' => place tree_layout size root (path ++ [i]) c :: go (S i) l'
    end.

(** [Q] holds of a node and of every node below it. *)
Fixpoint all_nodes {P : Type} (Q : Node P -> Prop) (n : Node P) : Prop :=
  Q n /\
  match n with
  | MkNode _ _ _ _ ch =>
      match ch with
      | None => True
      | Some l =>
          (fix go (l : list (Node P)) : Prop :=
             match l with
             | [] => True
             | c :: l' => all_nodes Q c /\ go l'
             end) l
      end
  end.

(** A hierarchy node has a [children] array exactly when its datum has a
    non-empty one. *)
Definition children_agree {P : Type} (n : Node P) : Prop :=
  match children n with
  | Some _ => exists c cs, td_children (data n) = Some (c :: cs)
  | None => td_children (data n) = None \/ td_children (data n) = Some []
  end.

(** The data of the [children] array of a hierarchy node are the
    [children] of its datum, in order. *)
Definition kids_agree {P : Type} (n : Node P) : Prop :=
  List.map data (default [] (children n)) = td_kids (data n).

(** The elements the callback draws for a node, and the vocabulary of the
    path and transform texts. *)
Section Drawing.
Context {num : Type}.
Variable num_of_Z : Z -> num.
Variable num_add : num -> num -> num.
Variable num_div : num -> num -> num.
Variable num_to_string : num -> string.
Variable symbol_path : symbolType -> Z -> string.

Local Abbreviation hn := (hnode (num * num)).
Local Abbreviation link_d' := (link_d num_of_Z num_add num_div num_to_string).
Local Abbreviation node_transform' :=
  (node_transform num_of_Z num_div num_to_string).
Local Abbreviation symbol' := (symbol (num:=num) symbol_path).

(** The link path of a node. *)
Definition link0 : element :=
  setAttribute "class" "link" (createElement "path").

Definition link_of (d : hn) : element :=
  match link_d' d with
  | inr s => setAttribute "d" s link0
  | inl _ => link0
  end.

(** The group of a node, and the marker and the label inside it. *)
Definition group0_of (d : hn) : element :=
  setAttribute "transform" (node_transform' d)
    (setAttribute "class" (node_class d) (createElement "g")).

Definition marker0 (d : hn) : element :=
  setProperty "stroke-width" (pretty 3)
    (setProperty "stroke" "black"
       (setProperty "fill" (fill d) (createElement "path"))).

Definition marker_of (d : hn) : element :=
  match symbol' d with
  | inr s => setAttribute "d" s (marker0 d)
  | inl _ => marker0 d
  end.

Definition text_of (d : hn) : element :=
  setText (default "" (label (data (this d))))
    (setAttribute "x" (pretty 20)
       (setAttribute "dy" ".35em" (createElement "text"))).

Definition full_group (d : hn) : element :=
  appendChild (text_of d) (appendChild (marker_of d) (group0_of d)).

(** The name of the node selects a symbol type. *)
Definition recognized (d : hn) : bool :=
  match symbol_type (data (this d)) with Some _ => true | None => false end.

(** The groups as the marker pass leaves them: markers drawn up to the
    first node whose name selects no symbol type. *)
Fixpoint marked (descs : list hn) : list element :=
  match descs with
  | [] => []
  | d :: r =>
      if recognized d
      then appendChild (marker_of d) (group0_of d) :: marked r
      else List.map (fun d => appendChild (marker0 d) (group0_of d)) (d :: r)
  end.

(** What [draw] appends and raises, node by node. *)
Definition drawn (descs : list hn) : list element * option exn :=
  if forallb recognized descs
  then (List.map link_of (slice1 descs) ++ List.map full_group descs, None)
  else (List.map link_of (slice1 descs) ++ marked descs,
        Some (TypeError "type(d) is undefined")).

(** Where a node is drawn, as the two texts of its coordinates. *)
Definition position (n : Node (num * num)) : string * string :=
  (num_to_string (num_div (y n) (num_of_Z 2)), num_to_string (x n)).

(** The path text "M start C control1 control2 end" of a cubic Bézier
    curve, and the transform text of a translation. *)
Definition cubic (start c1 c2 stop : string * string) : string :=
  "M" +:+ start.1 +:+ "," +:+ start.2
      +:+ "C" +:+ c1.1 +:+ "," +:+ c1.2
      +:+ " " +:+ c2.1 +:+ "," +:+ c2.2
      +:+ " " +:+ stop.1 +:+ "," +:+ stop.2.

Definition translate (p : string * string) : string :=
  "translate(" +:+ p.1 +:+ "," +:+ p.2 +:+ ")".

Definition is_link (e : element) : bool :=
  bool_decide (tag e = "path" /\ attrs e !! "class" = Some "link").

End Drawing.

(** ** Facts about the traversal *)

Section TraversalFacts.
Context {P : Type}.
Implicit Types (n : Node P) (e : hnode P) (next l : list (hnode P)).

Lemma all_nodes_here (Q : Node P -> Prop) n : all_nodes Q n -> Q n.
Proof. destruct n as [? ? ? ? [k|]]; simpl; tauto. Qed.

Lemma all_nodes_kids (Q : Node P -> Prop) n k :
  all_nodes Q n -> children n = Some k -> Forall (all_nodes Q) k.
Proof.
  destruct n as [d dp h p ch]; simpl. intros [_ H] ->.
  induction k as [|c k IH]; constructor; [tauto|]. apply IH. tauto.
Qed.

Lemma rank_child n k c : children n = Some k -> c ∈ k -> (rank c < rank n)%nat.
Proof.
  destruct n as [d dp h p ch]; simpl. intros -> Hc.
  assert (rank c ≤ max_list (List.map rank k))%nat; [|lia].
  apply max_list_elem_of_le. change (rank c ∈ rank <$> k).
  by apply list_elem_of_fmap_2.
Qed.

Lemma elem_of_kids_of e e' :
  e' ∈ kids_of e ->
  exists k, children (this e) = Some k /\ this e' ∈ k /\
            parent e' = Some (this e).
Proof.
  unfold kids_of. destruct (children (this e)) as [k|]; [|by inversion 1].
  intros H. change (e' ∈ (fun c => HNode c (Some (this e))) <$> k) in H.
  apply list_elem_of_fmap in H as (c & -> & Hc). eauto.
Qed.

Lemma elem_of_flat_map_kids next e' :
  e' ∈ flat_map kids_of next ->
  exists e k, e ∈ next /\ children (this e) = Some k /\ this e' ∈ k /\
              parent e' = Some (this e).
Proof.
  intros H. apply list_elem_of_In, in_flat_map in H as (e & He & H).
  apply list_elem_of_In in He, H.
  apply elem_of_kids_of in H as (k & ? & ? & ?). eauto 10.
Qed.

(** Enough fuel: the loop ends by itself when the fuel exceeds the rank
    of every node it starts from. *)
Lemma each_loop_enough fuel next :
  Forall (fun e => (rank (this e) ≤ fuel)%nat) next ->
  is_Some (each_loop (S fuel) next).
Proof.
  revert next. induction fuel as [|fuel IH]; intros next Hr.
  - simpl. destruct (flat_map kids_of next) as [|e' r] eqn:E; [eauto|].
    assert (e' ∈ flat_map kids_of next) as H by (rewrite E; left).
    apply elem_of_flat_map_kids in H as (e & k & He & Hk & Hc & _).
    rewrite Forall_forall in Hr. specialize (Hr e He).
    pose proof (rank_child _ _ _ Hk Hc). lia.
  - change (is_Some match flat_map kids_of next with
                    | [] => Some next
                    | next' => option_map (app next) (each_loop (S fuel) next')
                    end).
    destruct (flat_map kids_of next) as [|e' r] eqn:E; [eauto|].
    destruct (IH (e' :: r)) as [l Hl]; [|rewrite Hl; simpl; eauto].
    rewrite <- E. apply Forall_forall. intros x Hx.
    apply elem_of_flat_map_kids in Hx as (e & k & He & Hk & Hc & _).
    rewrite Forall_forall in Hr. specialize (Hr e He).
    pose proof (rank_child _ _ _ Hk Hc). lia.
Qed.

Lemma descendants_total (root : Node P) : is_Some (descendants root).
Proof.
  apply each_loop_enough. constructor; [simpl; lia | constructor].
Qed.

(** The result starts with the nodes the loop started from; every later
    entry is a child of an entry of the result, which is its [parent]. *)
Lemma each_loop_parents fuel next l :
  each_loop fuel next = Some l ->
  exists rest, l = next ++ rest /\
    Forall (fun e' => exists e k, e ∈ l /\ children (this e) = Some k /\
                        this e' ∈ k /\ parent e' = Some (this e)) rest.
Proof.
  revert next l. induction fuel as [|fuel IH]; intros next l; [done|].
  simpl. destruct (flat_map kids_of next) as [|e' r] eqn:E.
  - intros [= <-]. exists []. by rewrite app_nil_r.
  - destruct (each_loop fuel (e' :: r)) as [l'|] eqn:El; [|done].
    simpl. intros [= <-].
    destruct (IH _ _ El) as (rest & -> & Hrest).
    exists ((e' :: r) ++ rest). split; [done|].
    apply Forall_app. split.
    + rewrite <- E. apply Forall_forall. intros x Hx.
      apply elem_of_flat_map_kids in Hx as (e & k & He & Hk & Hc & Hp).
      exists e, k. rewrite elem_of_app. eauto.
    + eapply Forall_impl; [exact Hrest|]. simpl.
      intros x (e & k & He & Hk & Hc & Hp). exists e, k.
      rewrite elem_of_app. eauto.
Qed.

(** Every node is visited once: the result is as long as the trees of
    the starting nodes are large. *)
Lemma node_count_kids e :
  node_count (this e)
  = S (sum_list_with (fun e' => node_count (this e')) (kids_of e)).
Proof.
  unfold kids_of. destruct e as [[d dp h p [k|]] pa]; simpl; [|done].
  f_equal. generalize (Some (MkNode d dp h p (Some k))). intros q.
  induction k as [|c k IH]; simpl; [done|]. by rewrite IH.
Qed.

Lemma node_count_level next :
  sum_list_with (fun e => node_count (this e)) next
  = (length next
     + sum_list_with (fun e => node_count (this e)) (flat_map kids_of next))%nat.
Proof.
  induction next as [|e next IH]; simpl; [done|].
  rewrite sum_list_with_app, node_count_kids, IH. lia.
Qed.

Lemma each_loop_length fuel next l :
  each_loop fuel next = Some l ->
  length l = sum_list_with (fun e => node_count (this e)) next.
Proof.
  revert next l. induction fuel as [|fuel IH]; intros next l; [done|].
  simpl. rewrite (node_count_level next).
  destruct (flat_map kids_of next) as [|e' r] eqn:E.
  - intros [= <-]. simpl. lia.
  - destruct (each_loop fuel (e' :: r)) as [l'|] eqn:El; [|done].
    simpl. intros [= <-]. rewrite length_app. by rewrite (IH _ _ El).
Qed.

(** A property of all the nodes of the starting trees holds of every
    visited node. *)
Lemma each_loop_all (Q : Node P -> Prop) fuel next l :
  each_loop fuel next = Some l ->
  Forall (fun e => all_nodes Q (this e)) next ->
  Forall (fun e => Q (this e)) l.
Proof.
  revert next l. induction fuel as [|fuel IH]; intros next l; [done|].
  simpl. intros Hl Hn.
  assert (Forall (fun e => all_nodes Q (this e)) (flat_map kids_of next)) as Hk.
  { apply Forall_forall. intros x Hx.
    apply elem_of_flat_map_kids in Hx as (e & k & He & Hk & Hc & _).
    rewrite Forall_forall in Hn. specialize (Hn e He).
    pose proof (all_nodes_kids _ _ _ Hn Hk) as Hall.
    rewrite Forall_forall in Hall. auto. }
  assert (Forall (fun e => Q (this e)) next) as Hq.
  { eapply Forall_impl; [exact Hn|]. intros e. apply all_nodes_here. }
  destruct (flat_map kids_of next) as [|e' r] eqn:E.
  - by injection Hl as <-.
  - destruct (each_loop fuel (e' :: r)) as [l'|] eqn:El; [|done].
    simpl in Hl. injection Hl as <-. apply Forall_app. split; [done|].
    by apply (IH _ _ El).
Qed.

End TraversalFacts.

(** ** Facts about the hierarchy and its layout *)

Lemma treeData_nested_ind (Q : treeData -> Prop) :
  (forall n c, Q (TreeData n c None)) ->
  (forall n c l, Forall Q l -> Q (TreeData n c (Some l))) ->
  forall t, Q t.
Proof.
  intros Hleaf Hnode. fix IH 1. intros [n c [l|]]; [|apply Hleaf].
  apply Hnode. induction l as [|t l IHl]; constructor; [apply IH | exact IHl].
Qed.

Section LayoutFacts.
Context {num : Type}.
Variable tree_layout : Z * Z -> Node unit -> list nat -> num * num.

Lemma place_unfold size root path d dp h p ch :
  place tree_layout size root path (MkNode d dp h p ch)
  = MkNode d dp h (tree_layout size root path)
      (option_map (place_list tree_layout size root path O) ch).
Proof. by destruct ch. Qed.

Lemma place_list_cons size root path i c l :
  place_list tree_layout size root path i (c :: l)
  = place tree_layout size root (path ++ [i]) c
      :: place_list tree_layout size root path (S i) l.
Proof. done. Qed.

Lemma hierarchy_from_leaf dp n c ch :
  ch = None \/ ch = Some [] ->
  hierarchy_from dp (TreeData n c ch) = MkNode (TreeData n c ch) dp 0 tt None.
Proof. by intros [-> | ->]. Qed.

Lemma hierarchy_from_inner dp n c t l :
  hierarchy_from dp (TreeData n c (Some (t :: l)))
  = let kids := List.map (hierarchy_from (S dp)) (t :: l) in
    MkNode (TreeData n c (Some (t :: l))) dp
      (S (max_list (List.map height kids))) tt (Some kids).
Proof. done. Qed.

Lemma place_count size root t :
  forall dp path,
    node_count (place tree_layout size root path (hierarchy_from dp t))
    = td_size t.
Proof.
  induction t as [n c | n c l IH] using treeData_nested_ind; intros dp path.
  - done.
  - destruct l as [|t l]; [done|].
    rewrite hierarchy_from_inner. cbv zeta. rewrite place_unfold.
    cbn [option_map node_count td_size]. do 2 f_equal.
    generalize O at 1. revert IH. generalize (t :: l). clear t l.
    intros l IH. induction IH as [|t l Ht _ IHl]; intros i; [done|].
    cbn [List.map]. rewrite place_list_cons. cbn [List.map].
    by rewrite Ht, IHl.
Qed.

Lemma place_agree size root t :
  forall dp path,
    all_nodes children_agree
      (place tree_layout size root path (hierarchy_from dp t)).
Proof.
  induction t as [n c | n c l IH] using treeData_nested_ind; intros dp path.
  - split; [by left | done].
  - destruct l as [|t l]; [split; [by right | done]|].
    rewrite hierarchy_from_inner. cbv zeta. rewrite place_unfold.
    cbn [option_map]. split; [unfold children_agree; simpl; eauto|].
    generalize O at 1. revert IH. generalize (t :: l). clear t l.
    intros l IH. induction IH as [|t l Ht _ IHl]; intros i; [done|].
    cbn [List.map]. rewrite place_list_cons. split; [apply Ht | apply IHl].
Qed.

Lemma treemap_count t : node_count (treemap tree_layout (hierarchy t)) = td_size t.
Proof. apply place_count. Qed.

(** The traversal of a laid-out hierarchy returns: the root first, then
    every other node with its parent, one entry per node of the
    document, and every entry has a [children] array exactly when its
    datum has a non-empty one. *)
Lemma descendants_treemap t :
  exists rest,
    let root := treemap tree_layout (hierarchy t) in
    let descs := HNode root None :: rest in
    descendants root = Some descs /\
    length descs = td_size t /\
    Forall (fun d => exists e, e ∈ descs /\ parent d = Some (this e)) rest /\
    Forall (fun d => children_agree (this d)) descs.
Proof.
  cbv zeta. set (root := treemap tree_layout (hierarchy t)).
  destruct (descendants_total root) as [l Hl].
  destruct (each_loop_parents _ _ _ Hl) as (rest & -> & Hrest).
  exists rest. split; [done|]. split; [|split].
  - pose proof (each_loop_length _ _ _ Hl) as E.
    rewrite length_app in E. cbn [length sum_list_with this] in E.
    unfold root in E. rewrite treemap_count in E. cbn [length]. lia.
  - eapply Forall_impl; [exact Hrest|]. simpl.
    intros d (e & k & He & _ & _ & Hp). eauto.
  - apply (each_loop_all children_agree _ _ _ Hl).
    constructor; [|constructor]. apply place_agree.
Qed.

End LayoutFacts.

(** ** The order of the traversal *)

Section OrderFacts.
Context {P : Type}.
Implicit Types (n : Node P) (e : hnode P) (next l : list (hnode P)).

Lemma td_level_nil k : td_level k [] = [].
Proof. induction k as [|k IH]; [done|]. exact IH. Qed.

Lemma flat_map_seq_S {A} (f : nat -> list A) a m :
  flat_map f (seq (S a) m) = flat_map (fun k => f (S k)) (seq a m).
Proof.
  revert a. induction m as [|m IH]; intros a; [done|].
  simpl. by rewrite IH.
Qed.

Lemma flat_map_nil {A B} (l : list A) :
  flat_map (fun _ : A => @nil B) l = [].
Proof. by induction l. Qed.

Lemma kids_of_data e :
  kids_agree (this e) ->
  List.map (fun e' => data (this e')) (kids_of e) = td_kids (data (this e)).
Proof.
  unfold kids_agree, kids_of. intros <-.
  destruct (children (this e)) as [k|]; [|done]. simpl.
  by rewrite List.map_map.
Qed.

Lemma level_data next :
  Forall (fun e => kids_agree (this e)) next ->
  List.map (fun e => data (this e)) (flat_map kids_of next)
  = flat_map td_kids (List.map (fun e => data (this e)) next).
Proof.
  induction 1 as [|e next He _ IH]; [done|].
  simpl. by rewrite List.map_app, IH, kids_of_data.
Qed.

(** The loop visits the starting nodes, then the nodes one level below
    them, and so on, each level from left to right. *)
Lemma each_loop_levels fuel next l :
  each_loop fuel next = Some l ->
  Forall (fun e => all_nodes kids_agree (this e)) next ->
  forall m, (length l <= m)%nat ->
    List.map (fun e => data (this e)) l
    = flat_map (fun k => td_level k (List.map (fun e => data (this e)) next))
        (seq 0 m).
Proof.
  revert next l. induction fuel as [|fuel IH]; intros next l; [done|].
  simpl. intros Hl Hn m Hm.
  assert (Forall (fun e => kids_agree (this e)) next) as Hq.
  { eapply Forall_impl; [exact Hn|]. intros e. apply all_nodes_here. }
  assert (Forall (fun e => all_nodes kids_agree (this e))
            (flat_map kids_of next)) as Hk.
  { apply Forall_forall. intros e' He'.
    apply elem_of_flat_map_kids in He' as (e & k & He & Hch & Hc & _).
    rewrite Forall_forall in Hn. specialize (Hn e He).
    pose proof (all_nodes_kids _ _ _ Hn Hch) as Hall.
    rewrite Forall_forall in Hall. auto. }
  pose proof (level_data next Hq) as Hdata.
  destruct (flat_map kids_of next) as [|e' r] eqn:E.
  - injection Hl as <-. destruct m as [|m].
    + destruct next; [done | simpl in Hm; lia].
    + cbn [seq flat_map td_level]. rewrite flat_map_seq_S.
      cbn [td_level]. rewrite <- Hdata. simpl.
      erewrite flat_map_ext; [|intros k; apply td_level_nil].
      by rewrite flat_map_nil, app_nil_r.
  - destruct (each_loop fuel (e' :: r)) as [l'|] eqn:El; [|done].
    simpl in Hl. injection Hl as <-.
    assert (next <> []) as Hne by (by intros ->).
    rewrite length_app in Hm. destruct m as [|m].
    { destruct next; [done | simpl in Hm; lia]. }
    cbn [seq flat_map td_level]. rewrite flat_map_seq_S.
    cbn [td_level]. rewrite <- Hdata, List.map_app. f_equal.
    apply (IH _ _ El Hk). destruct next; [done | simpl in Hm; lia].
Qed.

(** Every node that the loop did not start from comes after its parent,
    and is one of the parent's children. *)
Lemma each_loop_parent_before fuel next l :
  each_loop fuel next = Some l ->
  forall i e', l !! i = Some e' -> (length next <= i)%nat ->
    exists j e k,
      (j < i)%nat /\ l !! j = Some e /\ parent e' = Some (this e) /\
      children (this e) = Some k /\ this e' ∈ k.
Proof.
  revert next l. induction fuel as [|fuel IH]; intros next l; [done|].
  simpl. intros Hl i e' Hi Hlen.
  destruct (flat_map kids_of next) as [|e0 r] eqn:E.
  - injection Hl as <-. apply lookup_lt_Some in Hi. lia.
  - destruct (each_loop fuel (e0 :: r)) as [l'|] eqn:El; [|done].
    simpl in Hl. injection Hl as <-.
    rewrite lookup_app_r in Hi by done.
    destruct (each_loop_parents _ _ _ El) as (rest & -> & _).
    destruct (decide (i - length next < length (e0 :: r))%nat) as [Hlt | Hge].
    + rewrite lookup_app_l in Hi by done.
      assert (e' ∈ flat_map kids_of next) as He'.
      { rewrite E. by eapply list_elem_of_lookup_2. }
      apply elem_of_flat_map_kids in He' as (e & k & He & Hch & Hc & Hp).
      apply list_elem_of_lookup in He as [j Hj].
      exists j, e, k. split; [apply lookup_lt_Some in Hj; lia|].
      split; [by apply lookup_app_l_Some|]. done.
    + destruct (IH _ _ El (i - length next)%nat e' Hi) as
        (j & e & k & Hj & Hje & Hp & Hch & Hc); [lia|].
      exists (length next + j)%nat, e, k. split; [lia|].
      split; [|done]. rewrite lookup_app_r by lia.
      by replace (length next + j - length next)%nat with j by lia.
Qed.

End OrderFacts.

Section OrderOfLayout.
Context {num : Type}.
Variable tree_layout : Z * Z -> Node unit -> list nat -> num * num.

Lemma place_data size root path n :
  data (place tree_layout size root path n) = data n.
Proof. by destruct n. Qed.

Lemma hierarchy_from_data dp t : data (hierarchy_from dp t) = t.
Proof. by destruct t as [n c [[|t l]|]]. Qed.

Lemma place_kids_agree size root t :
  forall dp path,
    all_nodes kids_agree
      (place tree_layout size root path (hierarchy_from dp t)).
Proof.
  induction t as [n c | n c l IH] using treeData_nested_ind; intros dp path.
  - done.
  - destruct l as [|t l]; [done|].
    rewrite hierarchy_from_inner. cbv zeta. rewrite place_unfold.
    cbn [option_map]. split.
    + unfold kids_agree, td_kids. cbn [children data td_children default].
      generalize O. generalize (t :: l). clear. intros l.
      induction l as [|t l IHl]; intros i; [done|].
      unfold id in *. cbn [List.map]. rewrite place_list_cons.
      cbn [List.map]. by rewrite place_data, hierarchy_from_data, IHl.
    + generalize O at 1. revert IH. generalize (t :: l). clear t l.
      intros l IH. induction IH as [|t l Ht _ IHl]; intros i; [done|].
      cbn [List.map]. rewrite place_list_cons. split; [apply Ht | apply IHl].
Qed.

End OrderOfLayout.

(** ** Facts about the drawing passes *)

Section DrawFacts.
Context {num : Type}.
Variable num_of_Z : Z -> num.
Variable num_add : num -> num -> num.
Variable num_div : num -> num -> num.
Variable num_to_string : num -> string.
Variable symbol_path : symbolType -> Z -> string.

Local Abbreviation hn := (hnode (num * num)).
Local Abbreviation link_d' := (link_d num_of_Z num_add num_div num_to_string).
Local Abbreviation node_transform' :=
  (node_transform num_of_Z num_div num_to_string).
Local Abbreviation symbol' := (symbol (num:=num) symbol_path).
Local Abbreviation draw' :=
  (draw num_of_Z num_add num_div num_to_string symbol_path).
Local Abbreviation link_of' :=
  (link_of num_of_Z num_add num_div num_to_string).
Local Abbreviation group0_of' := (group0_of num_of_Z num_div num_to_string).
Local Abbreviation marker_of' := (marker_of (num:=num) symbol_path).
Local Abbreviation marked' :=
  (marked num_of_Z num_div num_to_string symbol_path).
Local Abbreviation full_group' :=
  (full_group num_of_Z num_div num_to_string symbol_path).
Local Abbreviation drawn' :=
  (drawn num_of_Z num_add num_div num_to_string symbol_path).

Lemma sel_attr_map {D} k (v : D -> string) (a : D -> element) l :
  sel_attr k v (List.map (fun d => (d, a d)) l)
  = List.map (fun d => (d, setAttribute k (v d) (a d))) l.
Proof. unfold sel_attr. by rewrite List.map_map. Qed.

Lemma sel_style_map {D} k (v : D -> string) (a : D -> element) l :
  sel_style k v (List.map (fun d => (d, a d)) l)
  = List.map (fun d => (d, setProperty k (v d) (a d))) l.
Proof. unfold sel_style. by rewrite List.map_map. Qed.

Lemma sel_text_map {D} (v : D -> option string) (a : D -> element) l :
  sel_text v (List.map (fun d => (d, a d)) l)
  = List.map (fun d => (d, setText (default "" (v d)) (a d))) l.
Proof. unfold sel_text. by rewrite List.map_map. Qed.

Lemma sel_append_map {D} t (a : D -> element) (l : list D) :
  sel_append t (List.map (fun d => (d, a d)) l)
  = List.map (fun d => (d, createElement t)) l.
Proof.
  unfold sel_append, enter_append.
  induction l as [|d l IH]; simpl in *; [done|]. by rewrite IH.
Qed.

Lemma elements_map {D} (a : D -> element) (l : list D) :
  elements (List.map (fun d => (d, a d)) l) = List.map a l.
Proof. unfold elements. by rewrite List.map_map. Qed.

Lemma adopt_map {D} (a c : D -> element) (l : list D) :
  adopt (List.map (fun d => (d, a d)) l) (List.map (fun d => (d, c d)) l)
  = List.map (fun d => (d, appendChild (c d) (a d))) l.
Proof. induction l as [|d l IH]; simpl; [done|]. by rewrite IH. Qed.

(** The link pass cannot raise when every node has a parent. *)
Lemma link_pass (l : list hn) :
  Forall (fun d => is_Some (parent d)) l ->
  sel_attr_try "d" link_d' (List.map (fun d => (d, link0)) l)
  = (List.map (fun d => (d, link_of' d)) l, None).
Proof.
  unfold sel_attr_try. induction 1 as [|d l [p Hp] _ IH]; [done|].
  cbn [List.map sel_each]. rewrite IH. unfold link_of', link_d.
  by rewrite Hp.
Qed.

Lemma recognized_true (d : hn) :
  recognized d = true -> exists s, symbol' d = inr s.
Proof.
  unfold recognized, symbol.
  destruct (symbol_type (data (this d))); [eauto | done].
Qed.

Lemma recognized_false (d : hn) :
  recognized d = false -> symbol' d = inl (TypeError "type(d) is undefined").
Proof.
  unfold recognized, symbol. by destruct (symbol_type (data (this d))).
Qed.

(** The marker pass: it raises at the first node whose name selects no
    symbol type, and leaves the groups as [marked] says. *)
Lemma marker_pass (descs : list hn) :
  exists M x,
    sel_attr_try "d" symbol' (List.map (fun d => (d, marker0 d)) descs) = (M, x) /\
    elements (adopt (List.map (fun d => (d, group0_of' d)) descs) M)
      = marked' descs /\
    (if forallb recognized descs
     then x = None /\ M = List.map (fun d => (d, marker_of' d)) descs
     else x = Some (TypeError "type(d) is undefined")).
Proof.
  unfold sel_attr_try. induction descs as [|d l (M & x & E & HM & Hx)].
  - by exists [], None.
  - cbn [List.map sel_each forallb marked'].
    destruct (recognized d) eqn:Er.
    + destruct (recognized_true d Er) as [s Hs]. rewrite Hs, E.
      eexists _, x. split; [done|]. split.
      * unfold elements in *. cbn [adopt List.map snd]. rewrite HM.
        unfold marker_of'. by rewrite Hs.
      * cbn [andb]. destruct (forallb recognized l); [|done].
        destruct Hx as [-> ->]. split; [done|].
        cbn [List.map]. unfold marker_of' at 2. by rewrite Hs.
    + rewrite (recognized_false d Er).
      eexists _, _. split; [done|]. split; [|done].
      change ((d, marker0 d) :: List.map (fun d => (d, marker0 d)) l)
        with (List.map (fun d => (d, marker0 d)) (d :: l)).
      change ((d, group0_of' d) :: List.map (fun d => (d, group0_of' d)) l)
        with (List.map (fun d => (d, group0_of' d)) (d :: l)).
      by rewrite adopt_map, elements_map.
Qed.

Lemma draw_drawn (descs : list hn) :
  Forall (fun d => is_Some (parent d)) (slice1 descs) ->
  draw' descs = drawn' descs.
Proof.
  intros Hp. unfold draw, drawn', enter_append.
  rewrite (sel_attr_map "class" (fun _ => "link")). fold link0.
  rewrite (link_pass _ Hp), elements_map.
  rewrite (sel_attr_map "class" node_class), (sel_attr_map "transform").
  rewrite !sel_append_map.
  rewrite (sel_style_map "fill"), (sel_style_map "stroke"),
    (sel_style_map "stroke-width").
  destruct (marker_pass descs) as (M & x & E & HM & Hx).
  unfold marker0 in E. unfold group0_of' in HM. rewrite E.
  destruct (forallb recognized descs).
  - destruct Hx as [-> ->].
    rewrite (sel_attr_map "dy"), (sel_attr_map "x"), sel_text_map.
    by rewrite !adopt_map, elements_map.
  - rewrite Hx. by rewrite HM.
Qed.

End DrawFacts.

(** ** Running the definitions *)

Example file_ex1 : file "?file=net.json" = Some "net.json".
Proof. reflexivity. Qed.
Example file_ex2 : file "?a=b=c" = Some "b".
Proof. reflexivity. Qed.
Example file_ex3 : file "" = None.
Proof. reflexivity. Qed.
Example label_ex1 : label (TreeData "pore.a.b" "ff0000" None) = Some "a".
Proof. reflexivity. Qed.
Example css_ex1 : css_parses "fill" "#ff0000" = true.
Proof. reflexivity. Qed.
Example css_ex2 : css_parses "fill" "#red" = false.
Proof. reflexivity. Qed.
Example css_ex3 : css_parses "fill" "#FfF " = true.
Proof. reflexivity. Qed.
Example css_ex4 : css_parses "fill" "#" = false.
Proof. reflexivity. Qed.

(** ** Splitting on a character *)

Lemma split_nonempty c s : JS.split c s <> [].
Proof.
  destruct s as [|a s]; simpl; [done|].
  destruct (Ascii.eqb a c); [done|]. by destruct (JS.split c s).
Qed.

Lemma split_first c s : JS.split c s !! O = Some (up_to c s).
Proof.
  induction s as [|a s IH]; simpl; [done|].
  destruct (Ascii.eqb a c); [done|].
  destruct (JS.split c s) as [|tok rest]; simpl in *; congruence.
Qed.

(** The second token is the text between the first and the second
    separator; there is none when the separator does not occur. *)
Lemma split_second c s :
  JS.index (JS.split c s) 1 = up_to c <$> after_first c s.
Proof.
  unfold JS.index. induction s as [|a s IH]; simpl; [done|].
  destruct (Ascii.eqb a c).
  - simpl. apply split_first.
  - pose proof (split_nonempty c s).
    destruct (JS.split c s) as [|tok rest]; simpl in *; [done|]. exact IH.
Qed.

Lemma join_cons_char c a tok rest :
  join c (String a tok :: rest) = String a (join c (tok :: rest)).
Proof. by destruct rest. Qed.

Lemma after_first_None c s : after_first c s = None <-> count_char c s = O.
Proof.
  induction s as [|a s IH]; simpl; [done|].
  destruct (Ascii.eqb a c); [done | exact IH].
Qed.

Lemma after_first_Some c s r :
  after_first c s = Some r -> s = up_to c s +:+ String c r.
Proof.
  induction s as [|a s IH]; simpl; [done|].
  destruct (Ascii.eqb a c) eqn:E.
  - intros [= ->]. apply Ascii.eqb_eq in E as ->. done.
  - intros H. change (String a s = String a (up_to c s +:+ String c r)).
    f_equal. by apply IH.
Qed.

Lemma count_char_app c s1 s2 :
  count_char c (s1 +:+ s2) = (count_char c s1 + count_char c s2)%nat.
Proof. induction s1 as [|a s1 IH]; simpl; [done|]. rewrite IH. lia. Qed.

(** X1: splitting loses nothing and tokens are free of the separator:
    joining the tokens with the separator gives the text back, no token
    contains the separator, and there is one token more than there are
    separators in the text. *)
Theorem split_join_roundtrip (c : ascii) (s : string) :
  join c (JS.split c s) = s /\
  Forall (fun tok => count_char c tok = O) (JS.split c s) /\
  length (JS.split c s) = S (count_char c s).
Proof.
  induction s as [|a s (IHj & IHf & IHl)]; simpl.
  - by repeat constructor.
  - pose proof (split_nonempty c s) as Hne.
    destruct (Ascii.eqb a c) eqn:E.
    + apply Ascii.eqb_eq in E as ->. split; [|split].
      * destruct (JS.split c s) as [|tok rest]; [done|]. simpl in *.
        by rewrite IHj.
      * by constructor.
      * simpl. by rewrite IHl.
    + destruct (JS.split c s) as [|tok rest]; [done|]. split; [|split].
      * by rewrite join_cons_char, IHj.
      * inversion IHf as [|? ? Htok Hrest]; subst. constructor; [|done].
        simpl. by rewrite E.
      * simpl in *. lia.
Qed.

(** X2: the parsed [file] is [undefined] exactly when the query string,
    without its first character, contains no ["="]; otherwise the query
    string is that first character, the text before the first ["="], the
    ["="], and a rest that starts with the parsed value. *)
Theorem file_undefined_iff (search : string) :
  (file search = None <-> count_char "=" (JS.substring 1 search) = O) /\
  (forall v, file search = Some v ->
     exists key rest,
       JS.substring 1 search = key +:+ String "=" rest /\
       count_char "=" key = O /\ v = up_to "=" rest /\
       count_char "=" v = O).
Proof.
  unfold file. rewrite split_second. split.
  - rewrite <- after_first_None.
    by destruct (after_first "=" (JS.substring 1 search)).
  - intros v Hv.
    destruct (after_first "=" (JS.substring 1 search)) as [rest|] eqn:E;
      [|done].
    injection Hv as <-. exists (up_to "=" (JS.substring 1 search)), rest.
    split; [by apply after_first_Some|].
    assert (forall s, count_char "=" (up_to "=" s) = O) as Hup.
    { induction s as [|a s IH]; simpl; [done|].
      destruct (Ascii.eqb a "=") eqn:Ea; simpl; [done|]. by rewrite Ea. }
    by rewrite !Hup.
Qed.

(** ** The query string and the request *)

(** C8: the parse of the query string yields the second token of the
    text after the leading character split on ["="]: the text between
    the first and the next ["="] (or the end), and [undefined] when there
    is no ["="]; nothing is validated. *)
Theorem file_is_second_token (search : string) :
  let rest := JS.substring 1 search in
  file search = JS.split "=" rest !! 1%nat /\
  file search = (up_to "=" <$> after_first "=" rest) /\
  (forall q, search = String "?" q -> rest = q).
Proof.
  cbv zeta. split; [done|]. split; [apply split_second|]. by intros q ->.
Qed.

(** ** Style values *)

Lemma hex_digit_not_space (c : ascii) :
  is_hex_digit c = true -> is_space c = false.
Proof.
  unfold is_hex_digit, is_space. cbv zeta.
  generalize (nat_of_ascii c). intros n H.
  destruct (Nat.eqb_spec n 32) as [-> | _]; [done|].
  destruct (Nat.eqb_spec n 9) as [-> | _]; [done|].
  destruct (Nat.eqb_spec n 10) as [-> | _]; [done|].
  destruct (Nat.eqb_spec n 12) as [-> | _]; [done|].
  by destruct (Nat.eqb_spec n 13) as [-> | _].
Qed.

Lemma strip_right_hex (h : string) :
  all_chars is_hex_digit h = true -> strip_right h = h.
Proof.
  induction h as [|c h IH]; [done|]. cbn [all_chars strip_right].
  intros [Hc Hh]%andb_true_iff.
  by rewrite (hex_digit_not_space c Hc), (IH Hh).
Qed.

Lemma css_parses_hex_fill (h : string) :
  hex_color h = true -> css_parses "fill" ("#" +:+ h) = true.
Proof.
  intros Hh. change ("#" +:+ h) with (String "#" h). unfold css_parses.
  assert (all_chars is_hex_digit h = true) as Hall.
  { unfold hex_color in Hh. by apply andb_true_iff in Hh as [? _]. }
  by rewrite (strip_right_hex h Hall), Hh.
Qed.

(** ** What the callback leaves in the document *)

Lemma map_lookup {A B} (f : A -> B) (l : list A) (i : nat) :
  List.map f l !! i = f <$> (l !! i).
Proof. revert i. induction l as [|a l IH]; intros [|i]; simpl; auto. Qed.

Section Rendering.
Context {num : Type}.
Variable num_of_Z : Z -> num.
Variable num_add : num -> num -> num.
Variable num_div : num -> num -> num.
Variable num_to_string : num -> string.
Variable tree_layout : Z * Z -> Node unit -> list nat -> num * num.
Variable symbol_path : symbolType -> Z -> string.

Local Abbreviation hn := (hnode (num * num)).
Local Abbreviation callback' :=
  (callback num_of_Z num_add num_div num_to_string tree_layout symbol_path).
Local Abbreviation load' :=
  (load num_of_Z num_add num_div num_to_string tree_layout symbol_path).
Local Abbreviation drawn' :=
  (drawn num_of_Z num_add num_div num_to_string symbol_path).
Local Abbreviation link_of' :=
  (link_of num_of_Z num_add num_div num_to_string).
Local Abbreviation group0_of' := (group0_of num_of_Z num_div num_to_string).
Local Abbreviation marker_of' := (marker_of (num:=num) symbol_path).
Local Abbreviation marked' :=
  (marked num_of_Z num_div num_to_string symbol_path).
Local Abbreviation full_group' :=
  (full_group num_of_Z num_div num_to_string symbol_path).
Local Abbreviation nodes_of t := (treemap tree_layout (hierarchy t)).
Local Abbreviation position' := (position num_of_Z num_div num_to_string).

Lemma callback_drawn t g0 :
  exists descs,
    descendants (nodes_of t) = Some descs /\
    callback' (Loaded t) g0
      = Some (appendChildren (drawn' descs).1 g0, (drawn' descs).2) /\
    descs !! O = Some (HNode (nodes_of t) None) /\
    length descs = td_size t /\
    Forall (fun d => exists e, e ∈ descs /\ parent d = Some (this e))
      (slice1 descs) /\
    Forall (fun d => children_agree (this d)) descs.
Proof.
  destruct (descendants_treemap tree_layout t) as (rest & H).
  cbv zeta in H. destruct H as (Hd & Hlen & Hpar & Hag).
  eexists. split; [exact Hd|]. split; [|done].
  unfold callback. rewrite Hd. rewrite draw_drawn.
  - by destruct (drawn' _).
  - eapply Forall_impl; [exact Hpar|]. simpl. intros d (e & _ & ->). eauto.
Qed.

Lemma link_of_tag (d : hn) : tag (link_of' d) = "path".
Proof. unfold link_of. by destruct (link_d _ _ _ _ d). Qed.

Lemma link_of_class (d : hn) : attrs (link_of' d) !! "class" = Some "link".
Proof. unfold link_of. by destruct (link_d _ _ _ _ d). Qed.

Lemma link_of_d (d : hn) p :
  parent d = Some p ->
  attrs (link_of' d) !! "d"
  = Some (cubic (position' (this d))
            (num_to_string (num_div (num_add (num_div (y (this d)) (num_of_Z 2))
                                       (num_div (y p) (num_of_Z 2)))
                              (num_of_Z 2)),
             num_to_string (x (this d)))
            (num_to_string (num_div (num_add (num_div (y (this d)) (num_of_Z 2))
                                       (num_div (y p) (num_of_Z 2)))
                              (num_of_Z 2)),
             num_to_string (x p))
            (position' p)).
Proof.
  intros Hp. unfold link_of, link_d. rewrite Hp. simpl.
  by rewrite lookup_insert_eq.
Qed.

Lemma marked_length (descs : list hn) : length (marked' descs) = length descs.
Proof.
  induction descs as [|d l IH]; [done|]. cbn [marked].
  destruct (recognized d); cbn [length]; [by rewrite IH|].
  by rewrite length_map.
Qed.

Lemma marked_lookup (descs : list hn) i d :
  descs !! i = Some d ->
  exists grp,
    marked' descs !! i = Some grp /\ tag grp = "g" /\
    attrs grp = attrs (group0_of' d) /\
    (forallb recognized (take (S i) descs) = true ->
     childNodes grp = [marker_of' d]).
Proof.
  revert i. induction descs as [|a l IH]; intros i Hi; [done|].
  cbn [marked]. destruct (recognized a) eqn:Ea.
  - destruct i as [|i]; simpl in Hi.
    + injection Hi as ->. eexists. split; [done|]. by repeat split.
    + destruct (IH i Hi) as (grp & H1 & H2 & H3 & H4).
      exists grp. repeat split; try done.
      intros H. apply H4. cbn [take forallb] in H. rewrite Ea in H. done.
  - rewrite map_lookup, Hi. eexists. split; [done|]. repeat split.
    intros H. exfalso.
    destruct i; cbn [take forallb] in H; rewrite Ea in H; done.
Qed.

Lemma slice1_length {A} (l : list A) : length (slice1 l) = (length l - 1)%nat.
Proof. unfold slice1. by rewrite length_drop. Qed.

Lemma drawn_raised (descs : list hn) :
  (drawn' descs).2
  = if forallb recognized descs then None
    else Some (TypeError "type(d) is undefined").
Proof. unfold drawn. by destruct (forallb recognized descs). Qed.

Lemma drawn_length (descs : list hn) :
  length (drawn' descs).1 = (length descs - 1 + length descs)%nat.
Proof.
  unfold drawn. destruct (forallb recognized descs); cbn [fst];
    rewrite length_app, length_map, slice1_length.
  - by rewrite length_map.
  - by rewrite marked_length.
Qed.

Lemma drawn_link_lookup (descs : list hn) i d :
  descs !! S i = Some d -> (drawn' descs).1 !! i = Some (link_of' d).
Proof.
  intros Hd.
  assert (slice1 descs !! i = Some d) as Hs.
  { unfold slice1. by rewrite lookup_drop. }
  assert ((List.map link_of' (slice1 descs)) !! i = Some (link_of' d)) as Hl.
  { by rewrite map_lookup, Hs. }
  unfold drawn. destruct (forallb recognized descs); cbn [fst];
    by apply lookup_app_l_Some.
Qed.

Lemma drawn_group_lookup (descs : list hn) i d :
  descs !! i = Some d ->
  exists grp,
    (drawn' descs).1 !! (length descs - 1 + i)%nat = Some grp /\
    tag grp = "g" /\
    attrs grp = attrs (group0_of' d) /\
    (forallb recognized (take (S i) descs) = true ->
     childNodes grp !! O = Some (marker_of' d)) /\
    (forallb recognized descs = true ->
     childNodes grp = [marker_of' d; text_of d]).
Proof.
  intros Hd. unfold drawn.
  destruct (forallb recognized descs) eqn:Ef; cbn [fst];
    rewrite lookup_app_r by (rewrite length_map, slice1_length; lia);
    rewrite length_map, slice1_length;
    replace (length descs - 1 + i - (length descs - 1))%nat with i by lia.
  - exists (full_group' d). rewrite map_lookup, Hd. by repeat split.
  - destruct (marked_lookup descs i d Hd) as (grp & H1 & H2 & H3 & H4).
    exists grp. repeat split; try done.
    intros H. by rewrite (H4 H).
Qed.

Lemma drawn_links (descs : list hn) :
  List.filter is_link (drawn' descs).1 = List.map link_of' (slice1 descs).
Proof.
  assert (forall l : list hn,
             List.filter is_link (List.map link_of' l) = List.map link_of' l)
    as Hlinks.
  { induction l as [|d l IH]; [done|]. cbn [List.map List.filter].
    rewrite IH. unfold is_link. rewrite bool_decide_eq_true_2; [done|].
    split; [apply link_of_tag | apply link_of_class]. }
  assert (forall l : list element,
             Forall (fun e => tag e = "g") l -> List.filter is_link l = [])
    as Hgroups.
  { induction 1 as [|e l He _ IH]; [done|]. cbn [List.filter].
    rewrite IH. unfold is_link. rewrite bool_decide_eq_false_2; [done|].
    rewrite He. by intros [? _]. }
  unfold drawn. destruct (forallb recognized descs); cbn [fst];
    rewrite List.filter_app, Hlinks, Hgroups, ?app_nil_r; try done.
  - apply Forall_forall. intros e He.
    apply list_elem_of_In, in_map_iff in He as (d & <- & _). done.
  - apply Forall_forall. intros e He.
    apply list_elem_of_lookup in He as [i Hi].
    assert (i < length descs)%nat as Hlt.
    { rewrite <- marked_length. by eapply lookup_lt_Some. }
    destruct (lookup_lt_is_Some_2 descs i Hlt) as [d Hd].
    destruct (marked_lookup descs i d Hd) as (grp & H1 & H2 & _).
    congruence.
Qed.

Lemma group0_class (d : hn) :
  attrs (group0_of' d) !! "class" = Some (node_class d).
Proof.
  unfold group0_of. simpl. rewrite lookup_insert_ne by done.
  by rewrite lookup_insert_eq.
Qed.

Lemma group0_transform (d : hn) :
  attrs (group0_of' d) !! "transform" = Some (translate (position' (this d))).
Proof. unfold group0_of. simpl. by rewrite lookup_insert_eq. Qed.

Lemma group_children g0 added :
  childNodes g0 = [] -> childNodes (appendChildren added g0) = added.
Proof. by intros H; simpl; rewrite H. Qed.

(** C7: a node whose datum has no [children] key (or an empty array) is
    drawn as a group of class "node node--leaf", a node whose datum has
    a non-empty [children] array as a group of class
    "node node--internal". *)
Theorem node_class_by_children t descs i d :
  descendants (nodes_of t) = Some descs ->
  descs !! i = Some d ->
  exists g x grp,
    callback' (Loaded t) group0 = Some (g, x) /\
    childNodes g !! (length descs - 1 + i)%nat = Some grp /\
    tag grp = "g" /\
    attrs grp !! "class"
    = Some match td_children (data (this d)) with
           | Some (_ :: _) => "node node--internal"
           | _ => "node node--leaf"
           end.
Proof.
  intros Hdescs Hd.
  destruct (callback_drawn t group0) as (l & Hl & Hc & _ & _ & _ & Hag).
  rewrite Hl in Hdescs. injection Hdescs as ->.
  destruct (drawn_group_lookup descs i d Hd) as (grp & Hg & Ht & Ha & _).
  eexists _, _, grp. split; [exact Hc|].
  rewrite group_children by done. split; [done|]. split; [done|].
  rewrite Ha, group0_class. unfold node_class.
  rewrite Forall_forall in Hag.
  assert (children_agree (this d)) as H.
  { apply Hag. by eapply list_elem_of_lookup_2. }
  unfold children_agree in H. destruct (children (this d)).
  - by destruct H as (c & cs & ->).
  - by destruct H as [-> | ->].
Qed.

(** What the code keeps of the prefix rule: for a node whose name starts
    with "pore" the symbol generator draws the circle, for one whose name
    starts with "throat" the square, and that path is the marker of the
    node in the document, the marker pass having reached the node (it
    stops at the first node whose name has neither prefix). *)
Theorem marker_by_prefix t descs i d :
  descendants (nodes_of t) = Some descs ->
  descs !! i = Some d ->
  JS.startsWith (td_name (data (this d))) "pore" = true \/
  JS.startsWith (td_name (data (this d))) "throat" = true ->
  let shape := if JS.startsWith (td_name (data (this d))) "pore"
               then symbolCircle else symbolSquare in
  symbol symbol_path d = inr (symbol_path shape 250) /\
  (forallb recognized (take i descs) = true ->
   exists g x grp m,
     callback' (Loaded t) group0 = Some (g, x) /\
     childNodes g !! (length descs - 1 + i)%nat = Some grp /\
     childNodes grp !! O = Some m /\
     tag m = "path" /\
     attrs m !! "d" = Some (symbol_path shape 250)).
Proof.
  intros Hdescs Hd Hname shape.
  destruct (callback_drawn t group0) as (l & Hl & Hc & _).
  rewrite Hl in Hdescs. injection Hdescs as ->.
  assert (symbol_type (data (this d)) = Some shape) as Hs.
  { unfold symbol_type, shape.
    destruct (JS.startsWith (td_name (data (this d))) "pore"); [done|].
    by destruct Hname as [? | ->]. }
  split; [unfold symbol; by rewrite Hs|]. intros Hbefore.
  assert (forallb recognized (take (S i) descs) = true) as Hupto.
  { rewrite (take_S_r _ _ _ Hd), forallb_app, Hbefore. simpl.
    unfold recognized. by rewrite Hs. }
  destruct (drawn_group_lookup descs i d Hd) as (grp & Hg & _ & _ & Hm & _).
  eexists _, _, grp, _. split; [exact Hc|].
  rewrite group_children by done. split; [done|].
  split; [exact (Hm Hupto)|].
  unfold marker_of, symbol. rewrite Hs. split; [done|].
  simpl. by rewrite lookup_insert_eq.
Qed.

(** C3 fails on the code: in the document with a root "x.0" and a child
    "pore.1", the accessor returns [undefined] for the root (it has no
    final [else]), the symbol generator raises there, and the marker of
    "pore.1", a name that starts with "pore", is left without path text:
    no circle is drawn for it. *)
Theorem marker_lost_after_other_prefix :
  exists g descs d grp m,
    callback' (Loaded Sample.other_root) group0
      = Some (g, Some (TypeError "type(d) is undefined")) /\
    descendants (nodes_of Sample.other_root) = Some descs /\
    descs !! 1%nat = Some d /\
    td_name (data (this d)) = "pore.1" /\
    JS.startsWith (td_name (data (this d))) "pore" = true /\
    symbol symbol_path d = inr (symbol_path symbolCircle 250) /\
    childNodes g !! (length descs - 1 + 1)%nat = Some grp /\
    childNodes grp = [m] /\ tag m = "path" /\
    attrs m !! "d" = None.
Proof. eexists _, _, _, _, _. by repeat split. Qed.

(** C1, as amended: when the drawing completes, the label of a node is
    the text of its name between the first ['.'] and the next ['.'] (or
    the end of the name), and it is empty when the name has no ['.']. *)
Theorem label_is_second_token t descs i d :
  descendants (nodes_of t) = Some descs ->
  descs !! i = Some d ->
  forallb recognized descs = true ->
  exists g grp txt,
    callback' (Loaded t) group0 = Some (g, None) /\
    childNodes g !! (length descs - 1 + i)%nat = Some grp /\
    childNodes grp !! 1%nat = Some txt /\
    tag txt = "text" /\
    textContent txt
    = default "" (up_to "." <$> after_first "." (td_name (data (this d)))).
Proof.
  intros Hdescs Hd Hall.
  destruct (callback_drawn t group0) as (l & Hl & Hc & _).
  rewrite Hl in Hdescs. injection Hdescs as ->.
  rewrite drawn_raised, Hall in Hc.
  destruct (drawn_group_lookup descs i d Hd) as (grp & Hg & _ & _ & _ & Hk).
  eexists _, grp, _. split; [exact Hc|].
  rewrite group_children by done. split; [done|].
  rewrite (Hk Hall). split; [done|]. split; [done|].
  unfold text_of, label. simpl. by rewrite split_second.
Qed.

(** C4: one link path per non-root node, in order, and none for the
    root, which is the first node of the traversal: the link paths are one fewer than the nodes of the document,
    and the link of a node is a cubic Bézier path from the position of
    the node to the position of its parent. *)
Theorem links_for_non_root_nodes t :
  exists g x descs,
    callback' (Loaded t) group0 = Some (g, x) /\
    descendants (nodes_of t) = Some descs /\
    descs !! O = Some (HNode (nodes_of t) None) /\
    length descs = td_size t /\
    length (List.filter is_link (childNodes g)) = (td_size t - 1)%nat /\
    Forall2
      (fun d lk =>
         exists p c1 c2,
           parent d = Some p /\ tag lk = "path" /\
           attrs lk !! "d"
           = Some (cubic (position' (this d)) c1 c2 (position' p)))
      (slice1 descs) (List.filter is_link (childNodes g)).
Proof.
  destruct (callback_drawn t group0)
    as (descs & Hd & Hc & Hroot & Hlen & Hpar & _).
  eexists _, _, descs. split; [exact Hc|]. split; [exact Hd|].
  split; [exact Hroot|]. split; [exact Hlen|].
  rewrite group_children by done.
  rewrite drawn_links. split.
  - by rewrite length_map, slice1_length, Hlen.
  - induction Hpar as [|d l (e & _ & Hp) _ IH]; [constructor|].
    cbn [List.map]. constructor; [|exact IH].
    eexists _, _, _. split; [exact Hp|]. split; [apply link_of_tag|].
    by apply link_of_d.
Qed.

(** C10: the link of a non-root node starts where the group of the node
    is translated to and ends where the group of its parent is
    translated to. *)
Theorem link_ends_at_node_positions t descs i d :
  descendants (nodes_of t) = Some descs ->
  descs !! S i = Some d ->
  exists g x p j e lk ng pg c1 c2,
    callback' (Loaded t) group0 = Some (g, x) /\
    parent d = Some p /\ descs !! j = Some e /\ this e = p /\
    childNodes g !! i = Some lk /\
    childNodes g !! (length descs - 1 + S i)%nat = Some ng /\
    childNodes g !! (length descs - 1 + j)%nat = Some pg /\
    attrs lk !! "d" = Some (cubic (position' (this d)) c1 c2 (position' p)) /\
    attrs ng !! "transform" = Some (translate (position' (this d))) /\
    attrs pg !! "transform" = Some (translate (position' p)).
Proof.
  intros Hdescs Hd.
  destruct (callback_drawn t group0) as (l & Hl & Hc & _ & _ & Hpar & _).
  rewrite Hl in Hdescs. injection Hdescs as ->.
  assert (slice1 descs !! i = Some d) as Hs.
  { unfold slice1. by rewrite lookup_drop. }
  rewrite Forall_forall in Hpar.
  destruct (Hpar d) as (e & He & Hp); [by eapply list_elem_of_lookup_2|].
  apply list_elem_of_lookup in He as [j Hj].
  destruct (drawn_group_lookup descs _ d Hd) as (ng & Hng & _ & Hna & _).
  destruct (drawn_group_lookup descs _ e Hj) as (pg & Hpg & _ & Hpa & _).
  eexists _, _, (this e), j, e, _, ng, pg, _, _.
  split; [exact Hc|]. rewrite group_children by done.
  split; [exact Hp|]. split; [exact Hj|]. split; [done|].
  split; [by apply drawn_link_lookup|]. split; [exact Hng|].
  split; [exact Hpg|]. split; [by apply link_of_d|].
  by rewrite Hna, Hpa, !group0_transform.
Qed.

(** C5: on a fetch error the callback raises that error and appends
    nothing: the group stays without children, so the document has no
    link path, no node group and no label. *)
Theorem fetch_error_draws_nothing search error :
  exists p,
    load' search (Failed error) = Some p /\
    raised p = Some (Thrown error) /\
    group_of p = Some group0 /\
    childNodes group0 = [] /\
    body p = appendChild (svg_with group0) body0.
Proof. eexists. by repeat split. Qed.

(** C6: whatever the query string, the request goes to the one fixed
    address, and two loads that differ in the query string only and get
    the same response leave the same document and raise the same. *)
Theorem request_ignores_query search1 search2 r :
  exists p1 p2,
    load' search1 r = Some p1 /\ load' search2 r = Some p2 /\
    requested p1 = tree_url /\ requested p2 = tree_url /\
    body p1 = body p2 /\ raised p1 = raised p2.
Proof.
  unfold load.
  assert (is_Some (callback' r group0)) as [[g x] Hc].
  { destruct r as [err | t]; [by eexists|].
    destruct (callback_drawn t group0) as (descs & _ & Hc & _). eauto. }
  rewrite Hc. eexists _, _. by repeat split.
Qed.

(** C2: the document of the example scenario is drawn as one link path
    followed by one internal node (circle, fill #ff0000, label 0) and
    one leaf node (square, fill #0000ff, label 1); the link runs from
    the leaf to the internal node. *)
Theorem example_scenario search :
  exists p g lk a ma ta b mb tb pa pb c1 c2,
    load' search
      (Loaded (TreeData "pore.0" "ff0000"
                 (Some [TreeData "throat.1" "0000ff" None]))) = Some p /\
    raised p = None /\ group_of p = Some g /\
    childNodes g = [lk; a; b] /\
    (tag lk = "path" /\ attrs lk !! "class" = Some "link" /\
     attrs lk !! "d" = Some (cubic pb c1 c2 pa)) /\
    (tag a = "g" /\ attrs a !! "class" = Some "node node--internal" /\
     attrs a !! "transform" = Some (translate pa) /\
     childNodes a = [ma; ta] /\
     tag ma = "path" /\
     attrs ma !! "d" = Some (symbol_path symbolCircle 250) /\
     styles ma !! "fill" = Some "#ff0000" /\
     tag ta = "text" /\ textContent ta = "0") /\
    (tag b = "g" /\ attrs b !! "class" = Some "node node--leaf" /\
     attrs b !! "transform" = Some (translate pb) /\
     childNodes b = [mb; tb] /\
     tag mb = "path" /\
     attrs mb !! "d" = Some (symbol_path symbolSquare 250) /\
     styles mb !! "fill" = Some "#0000ff" /\
     tag tb = "text" /\ textContent tb = "1").
Proof.
  eexists _, _, _, _, _, _, _, _, _, (_, _), (_, _), (_, _), (_, _).
  split; [reflexivity|]. split; [reflexivity|]. split; [reflexivity|].
  split; [reflexivity|]. repeat split; reflexivity.
Qed.

(** ** More of what the callback leaves in the document *)

Lemma callback_frame r g x :
  callback' r group0 = Some (g, x) ->
  tag g = "g" /\ attrs g = attrs group0.
Proof.
  destruct r as [err | t]; [by intros [= <- _]|].
  destruct (callback_drawn t group0) as (descs & _ & -> & _).
  by intros [= <- _].
Qed.

Lemma recognized_prefix (d : hn) :
  recognized d
  = JS.startsWith (td_name (data (this d))) "pore"
    || JS.startsWith (td_name (data (this d))) "throat".
Proof.
  unfold recognized, symbol_type.
  destruct (JS.startsWith (td_name (data (this d))) "pore"); [done|].
  by destruct (JS.startsWith (td_name (data (this d))) "throat").
Qed.

Lemma marked_lookup_exact (descs : list hn) i d :
  descs !! i = Some d ->
  marked' descs !! i
  = Some (appendChild
            (if forallb recognized (take (S i) descs)
             then marker_of' d else marker0 d)
            (group0_of' d)).
Proof.
  revert i. induction descs as [|a l IH]; intros i Hi; [done|].
  cbn [marked take forallb]. destruct (recognized a) eqn:Ea.
  - destruct i as [|i]; simpl in Hi.
    + injection Hi as ->. by rewrite take_0.
    + cbn [andb]. exact (IH i Hi).
  - by rewrite map_lookup, Hi.
Qed.

Lemma drawn_group_exact (descs : list hn) i d :
  descs !! i = Some d ->
  (drawn' descs).1 !! (length descs - 1 + i)%nat
  = Some (if forallb recognized descs then full_group' d
          else appendChild
                 (if forallb recognized (take (S i) descs)
                  then marker_of' d else marker0 d)
                 (group0_of' d)).
Proof.
  intros Hd. unfold drawn.
  destruct (forallb recognized descs); cbn [fst];
    rewrite lookup_app_r by (rewrite length_map, slice1_length; lia);
    rewrite length_map, slice1_length;
    replace (length descs - 1 + i - (length descs - 1))%nat with i by lia.
  - by rewrite map_lookup, Hd.
  - by apply marked_lookup_exact.
Qed.

Lemma marker_styles_eq (d : hn) :
  tag (marker_of' d) = "path" /\
  styles (marker_of' d) = styles (marker0 d) /\
  childNodes (marker_of' d) = [].
Proof. unfold marker_of. by destruct (symbol symbol_path d). Qed.

Lemma forallb_take_false (descs : list hn) i j e :
  descs !! j = Some e -> (j <= i)%nat -> recognized e = false ->
  forallb recognized (take (S i) descs) = false.
Proof.
  intros Hj Hji He. apply not_true_is_false. intros Hall.
  rewrite forallb_forall in Hall.
  assert (recognized e = true); [|congruence].
  apply Hall, list_elem_of_In. apply list_elem_of_lookup. exists j.
  rewrite lookup_take_lt by lia. done.
Qed.

(** X3: whatever the query string and the response, the child elements
    of the body are the two script elements of the page followed by one
    svg of 3000 by 1000, which holds one group translated by (20,20); the
    callback draws into that group and leaves its tag and attributes as
    they are; the parsed [file] is kept as parsed. *)
Theorem page_frame search r :
  exists p lib scr svg g,
    load' search r = Some p /\ file_var p = file search /\
    childNodes (body p) = [lib; scr; svg] /\
    tag lib = "script" /\
    attrs lib !! "src" = Some "https://d3js.org/d3.v4.min.js" /\
    tag scr = "script" /\ tag svg = "svg" /\
    attrs svg !! "width" = Some "3000" /\
    attrs svg !! "height" = Some "1000" /\
    childNodes svg = [g] /\ group_of p = Some g /\ tag g = "g" /\
    attrs g !! "transform" = Some "translate(20,20)".
Proof.
  unfold load.
  assert (is_Some (callback' r group0)) as [[g x] Hc].
  { destruct r as [err | t]; [by eexists|].
    destruct (callback_drawn t group0) as (descs & _ & Hc & _). eauto. }
  rewrite Hc. destruct (callback_frame r g x Hc) as [Ht Ha].
  eexists _, _, _, _, g. split; [done|]. split; [done|].
  split; [reflexivity|]. split; [done|]. split; [done|]. split; [done|].
  split; [done|]. split; [done|]. split; [done|]. split; [done|].
  split; [done|]. split; [done|]. by rewrite Ha.
Qed.

(** X4: the children of the group are the link paths, one fewer than the
    nodes of the document, followed by the node groups, one per node;
    this holds whether or not the marker pass raises. *)
Theorem links_then_groups t :
  exists g x links groups,
    callback' (Loaded t) group0 = Some (g, x) /\
    childNodes g = links ++ groups /\
    length links = (td_size t - 1)%nat /\ length groups = td_size t /\
    Forall (fun e => tag e = "path" /\ attrs e !! "class" = Some "link" /\
                     childNodes e = []) links /\
    Forall (fun e => tag e = "g" /\ exists m, childNodes e !! O = Some m /\
                                              tag m = "path") groups.
Proof.
  destruct (callback_drawn t group0) as (descs & _ & Hc & _ & Hlen & _).
  assert (Forall (fun e => tag e = "path" /\ attrs e !! "class" = Some "link" /\
                           childNodes e = [])
            (List.map link_of' (slice1 descs))) as Hlinks.
  { apply Forall_forall. intros e He.
    apply list_elem_of_In, in_map_iff in He as (d & <- & _).
    split; [apply link_of_tag|]. split; [apply link_of_class|].
    unfold link_of. by destruct (link_d _ _ _ _ d). }
  revert Hc. unfold drawn.
  destruct (forallb recognized descs) eqn:Ef; cbn [fst snd]; intros Hc;
    eexists _, _, (List.map link_of' (slice1 descs)), _;
    (split; [exact Hc|]); rewrite group_children by done;
    (split; [reflexivity|]);
    (split; [by rewrite length_map, slice1_length, Hlen|]).
  - split; [by rewrite length_map|]. split; [done|].
    apply Forall_forall. intros e He.
    apply list_elem_of_In, in_map_iff in He as (d & <- & _).
    split; [done|]. exists (marker_of' d). split; [done|].
    apply marker_styles_eq.
  - split; [by rewrite marked_length|]. split; [done|].
    apply Forall_forall. intros e He.
    apply list_elem_of_lookup in He as [i Hi].
    assert (i < length descs)%nat as Hlt.
    { rewrite <- marked_length. by eapply lookup_lt_Some. }
    destruct (lookup_lt_is_Some_2 descs i Hlt) as [d Hd].
    rewrite (marked_lookup_exact descs i d Hd) in Hi. injection Hi as <-.
    split; [done|]. eexists. split; [done|].
    destruct (forallb recognized (take (S i) descs)); [|done].
    apply marker_styles_eq.
Qed.

(** X5: the nodes are traversed, and their groups appended, level by
    level: the root, then the nodes one level down from left to right,
    and so on; every node of the document is there once. *)
Theorem groups_in_level_order t :
  exists descs,
    descendants (nodes_of t) = Some descs /\
    length descs = td_size t /\
    List.map (fun d => data (this d)) descs
    = flat_map (fun k => td_level k [t]) (seq 0 (td_size t)).
Proof.
  destruct (callback_drawn t group0) as (descs & Hd & _ & _ & Hlen & _).
  exists descs. split; [exact Hd|]. split; [exact Hlen|].
  pose proof (each_loop_levels _ _ _ Hd) as H.
  cbn [List.map this] in H. unfold treemap in H.
  rewrite place_data in H. unfold hierarchy in H.
  rewrite hierarchy_from_data in H. apply H; [|lia].
  constructor; [|constructor]. apply place_kids_agree.
Qed.

(** X6: every node but the root comes after its parent in the traversal
    (so the group of a parent precedes the groups of its children), and
    is one of the children of that parent. *)
Theorem parent_comes_first t descs i d :
  descendants (nodes_of t) = Some descs ->
  descs !! S i = Some d ->
  exists j e k,
    (j <= i)%nat /\ descs !! j = Some e /\ parent d = Some (this e) /\
    children (this e) = Some k /\ this d ∈ k.
Proof.
  intros Hdescs Hd.
  destruct (each_loop_parent_before _ _ _ Hdescs (S i) d Hd)
    as (j & e & k & Hj & He & Hp & Hk & Hin); [simpl; lia|].
  exists j, e, k. split; [lia|]. done.
Qed.

(** X7: the first child of every node group is a path with a black
    stroke of width 3, and filled with ["#"] and the node's [color] when
    that is a hex colour (3, 4, 6 or 8 hex digits); the styles are set
    before the path text, so also when the marker pass raises. *)
Theorem marker_styles t descs i d :
  descendants (nodes_of t) = Some descs ->
  descs !! i = Some d ->
  exists g x grp m,
    callback' (Loaded t) group0 = Some (g, x) /\
    childNodes g !! (length descs - 1 + i)%nat = Some grp /\
    childNodes grp !! O = Some m /\ tag m = "path" /\
    styles m !! "stroke" = Some "black" /\
    styles m !! "stroke-width" = Some "3" /\
    (hex_color (td_color (data (this d))) = true ->
     styles m !! "fill" = Some ("#" +:+ td_color (data (this d)))).
Proof.
  intros Hdescs Hd.
  destruct (callback_drawn t group0) as (l & Hl & Hc & _).
  rewrite Hl in Hdescs. injection Hdescs as ->.
  pose proof (drawn_group_exact descs i d Hd) as Hg.
  destruct (marker_styles_eq d) as (Ht & Hs & _).
  assert (styles (marker0 d) !! "stroke" = Some "black" /\
          styles (marker0 d) !! "stroke-width" = Some "3" /\
          (hex_color (td_color (data (this d))) = true ->
           styles (marker0 d) !! "fill"
           = Some ("#" +:+ td_color (data (this d))))) as H0.
  { unfold marker0. cbn [styles setProperty createElement].
    change (css_parses "stroke-width" (pretty 3)) with true.
    change (css_parses "stroke" "black") with true. cbv iota.
    split; [|split].
    - by rewrite lookup_insert_ne, lookup_insert_eq by done.
    - by rewrite lookup_insert_eq.
    - intros Hhex. unfold fill.
      rewrite (css_parses_hex_fill _ Hhex).
      by rewrite !lookup_insert_ne, lookup_insert_eq by done. }
  assert (exists grp m,
             (drawn' descs).1 !! (length descs - 1 + i)%nat = Some grp /\
             childNodes grp !! O = Some m /\
             (m = marker_of' d \/ m = marker0 d)) as (grp & m & Hgrp & Hm & Hor).
  { rewrite Hg. destruct (forallb recognized descs);
      [|destruct (forallb recognized (take (S i) descs))];
      eexists _, _; (split; [reflexivity|]); (split; [reflexivity|]); auto. }
  exists (appendChildren (drawn' descs).1 group0), (drawn' descs).2, grp, m.
  split; [exact Hc|]. rewrite group_children by done.
  split; [exact Hgrp|]. split; [exact Hm|].
  destruct Hor as [-> | ->]; rewrite ?Hs; by split.
Qed.

(** X8: the callback completes exactly when every name starts with
    "pore" or with "throat"; otherwise it raises the TypeError of the
    symbol generator. *)
Theorem raises_iff_other_prefix t :
  exists g x descs,
    callback' (Loaded t) group0 = Some (g, x) /\
    descendants (nodes_of t) = Some descs /\
    x = if forallb
             (fun d : hn =>
                JS.startsWith (td_name (data (this d))) "pore"
                || JS.startsWith (td_name (data (this d))) "throat") descs
        then None else Some (TypeError "type(d) is undefined").
Proof.
  destruct (callback_drawn t group0) as (descs & Hd & Hc & _).
  eexists _, _, descs. split; [exact Hc|]. split; [exact Hd|].
  rewrite drawn_raised.
  assert (forallb recognized descs
          = forallb
              (fun d : hn =>
                 JS.startsWith (td_name (data (this d))) "pore"
                 || JS.startsWith (td_name (data (this d))) "throat") descs)
    as ->; [|done].
  clear. induction descs as [|d l IH]; [done|].
  cbn [forallb]. by rewrite IH, recognized_prefix.
Qed.

(** X9: once a name with neither prefix is met, no label is appended to
    any group (each group holds its marker path only), and the markers
    from that node on have no path text. *)
Theorem no_label_after_type_error t descs i d j e :
  descendants (nodes_of t) = Some descs ->
  descs !! i = Some d ->
  descs !! j = Some e ->
  JS.startsWith (td_name (data (this e))) "pore" = false ->
  JS.startsWith (td_name (data (this e))) "throat" = false ->
  exists g grp m,
    callback' (Loaded t) group0
      = Some (g, Some (TypeError "type(d) is undefined")) /\
    childNodes g !! (length descs - 1 + i)%nat = Some grp /\
    childNodes grp = [m] /\ tag m = "path" /\
    ((j <= i)%nat -> attrs m !! "d" = None).
Proof.
  intros Hdescs Hd He Hpore Hthroat.
  destruct (callback_drawn t group0) as (l & Hl & Hc & _).
  rewrite Hl in Hdescs. injection Hdescs as ->.
  assert (recognized e = false) as Hrec.
  { by rewrite recognized_prefix, Hpore, Hthroat. }
  assert (forallb recognized descs = false) as Hall.
  { rewrite <- (firstn_all descs).
    destruct (decide (length descs = O)) as [H0 | H0].
    - apply lookup_lt_Some in He. lia.
    - replace (length descs) with (S (length descs - 1)) by lia.
      eapply forallb_take_false; [exact He | | exact Hrec].
      apply lookup_lt_Some in He. lia. }
  pose proof (drawn_group_exact descs i d Hd) as Hg.
  rewrite drawn_raised, Hall in Hc. rewrite Hall in Hg.
  destruct (marker_styles_eq d) as (Ht & _ & _).
  eexists _, _, _. split; [exact Hc|]. rewrite group_children by done.
  split; [exact Hg|]. split; [reflexivity|]. split.
  - by destruct (forallb recognized (take (S i) descs)).
  - intros Hji. by rewrite (forallb_take_false descs i j e He Hji Hrec).
Qed.

(** X10: when the drawing completes, the group of every node holds its
    marker path and then its label, a text element with [dy] ".35em" and
    [x] 20 and no children. *)
Theorem label_element t descs i d :
  descendants (nodes_of t) = Some descs ->
  descs !! i = Some d ->
  forallb recognized descs = true ->
  exists g grp m txt,
    callback' (Loaded t) group0 = Some (g, None) /\
    childNodes g !! (length descs - 1 + i)%nat = Some grp /\
    childNodes grp = [m; txt] /\ tag m = "path" /\ tag txt = "text" /\
    attrs txt !! "dy" = Some ".35em" /\ attrs txt !! "x" = Some "20" /\
    childNodes txt = [].
Proof.
  intros Hdescs Hd Hall.
  destruct (callback_drawn t group0) as (l & Hl & Hc & _).
  rewrite Hl in Hdescs. injection Hdescs as ->.
  pose proof (drawn_group_exact descs i d Hd) as Hg.
  rewrite drawn_raised, Hall in Hc. rewrite Hall in Hg.
  destruct (marker_styles_eq d) as (Ht & _ & _).
  eexists _, _, _, _. split; [exact Hc|]. rewrite group_children by done.
  split; [exact Hg|]. split; [reflexivity|]. split; [exact Ht|].
  split; [done|]. unfold text_of. simpl. split; [|split; [|done]].
  - by rewrite lookup_insert_ne, lookup_insert_eq by done.
  - by rewrite lookup_insert_eq.
Qed.

(** X11: when the drawing completes, a name without ['.'] gets an empty
    label, and a name with exactly one ['.'] gets all the text after it
    as its label. *)
Theorem label_by_dots t descs i d :
  descendants (nodes_of t) = Some descs ->
  descs !! i = Some d ->
  forallb recognized descs = true ->
  exists g grp m txt,
    callback' (Loaded t) group0 = Some (g, None) /\
    childNodes g !! (length descs - 1 + i)%nat = Some grp /\
    childNodes grp = [m; txt] /\
    (count_char "." (td_name (data (this d))) = O -> textContent txt = "") /\
    (forall r, count_char "." (td_name (data (this d))) = 1%nat ->
               after_first "." (td_name (data (this d))) = Some r ->
               textContent txt = r).
Proof.
  intros Hdescs Hd Hall.
  destruct (callback_drawn t group0) as (l & Hl & Hc & _).
  rewrite Hl in Hdescs. injection Hdescs as ->.
  pose proof (drawn_group_exact descs i d Hd) as Hg.
  rewrite drawn_raised, Hall in Hc. rewrite Hall in Hg.
  eexists _, _, _, _. split; [exact Hc|]. rewrite group_children by done.
  split; [exact Hg|]. split; [reflexivity|].
  unfold text_of, label. cbn [textContent setText]. rewrite split_second.
  split.
  - intros H0. apply after_first_None in H0. by rewrite H0.
  - intros r H1 Hr. rewrite Hr. cbn [fmap option_fmap option_map default].
    pose proof (after_first_Some _ _ _ Hr) as Hsplit.
    rewrite Hsplit in H1. rewrite count_char_app in H1. simpl in H1.
    assert (count_char "." r = O) as Hr0 by lia.
    clear -Hr0. induction r as [|a r IH]; [done|]. simpl in *.
    destruct (Ascii.eqb a "."); [done|]. by rewrite IH.
Qed.

(** X12: the link of a node is drawn with both control points at the
    horizontal midpoint between the node and its parent, the first at the
    height of the node and the second at the height of the parent. *)
Theorem link_control_points t descs i d :
  descendants (nodes_of t) = Some descs ->
  descs !! S i = Some d ->
  exists g x p lk,
    callback' (Loaded t) group0 = Some (g, x) /\
    parent d = Some p /\ childNodes g !! i = Some lk /\
    let mid :=
      num_to_string
        (num_div (num_add (num_div (y (this d)) (num_of_Z 2))
                    (num_div (y p) (num_of_Z 2))) (num_of_Z 2)) in
    attrs lk !! "d"
    = Some (cubic (position' (this d)) (mid, (position' (this d)).2)
              (mid, (position' p).2) (position' p)).
Proof.
  intros Hdescs Hd.
  destruct (callback_drawn t group0) as (l & Hl & Hc & _ & _ & Hpar & _).
  rewrite Hl in Hdescs. injection Hdescs as ->.
  assert (slice1 descs !! i = Some d) as Hs.
  { unfold slice1. by rewrite lookup_drop. }
  rewrite Forall_forall in Hpar.
  destruct (Hpar d) as (e & _ & Hp); [by eapply list_elem_of_lookup_2|].
  eexists _, _, (this e), _. split; [exact Hc|].
  rewrite group_children by done. split; [exact Hp|].
  split; [by apply drawn_link_lookup|]. by apply link_of_d.
Qed.

End Rendering.

(** ** The snapshots of the transient run *)





Section RunFacts.
Context {val : Type}.
Variable solve : Z -> list val -> list val.
Variable steady_reached : list val -> list val -> bool.
Variable s : Transient.settings.

Local Abbreviation march' := (Transient.march solve steady_reached s).
Local Abbreviation run' := (Transient.run solve steady_reached s).
Local Abbreviation state' := (Transient.state_at solve s).
Local Abbreviation time j :=
  (Transient.t_initial s + Z.of_nat j * Transient.t_step s).




End RunFacts.


(** ** The properties on the sample instance *)

Lemma node_class_by_children_witness :
  descendants Sample.nodes = Some Sample.descs /\
  Sample.descs !! 1%nat = Some Sample.leaf /\
  exists g x grp,
    Sample.callback (Loaded Sample.pore0) group0 = Some (g, x) /\
    childNodes g !! (length Sample.descs - 1 + 1)%nat = Some grp /\
    tag grp = "g" /\
    attrs grp !! "class" = Some "node node--leaf".
Proof.
  split; [reflexivity|]. split; [reflexivity|].
  exact (node_class_by_children id Z.add Z.div pretty Sample.layout
           Sample.path_of Sample.pore0 Sample.descs 1 Sample.leaf
           eq_refl eq_refl).
Defined.

Lemma marker_by_prefix_witness :
  descendants Sample.nodes = Some Sample.descs /\
  Sample.descs !! 1%nat = Some Sample.leaf /\
  (JS.startsWith "throat.1" "pore" = true \/
   JS.startsWith "throat.1" "throat" = true) /\
  symbol Sample.path_of Sample.leaf = inr (Sample.path_of symbolSquare 250) /\
  forallb recognized (take 1 Sample.descs) = true /\
  exists g x grp m,
    Sample.callback (Loaded Sample.pore0) group0 = Some (g, x) /\
    childNodes g !! (length Sample.descs - 1 + 1)%nat = Some grp /\
    childNodes grp !! O = Some m /\
    tag m = "path" /\
    attrs m !! "d" = Some (Sample.path_of symbolSquare 250).
Proof.
  split; [reflexivity|]. split; [reflexivity|].
  split; [right; reflexivity|].
  destruct (marker_by_prefix id Z.add Z.div pretty Sample.layout
              Sample.path_of Sample.pore0 Sample.descs 1 Sample.leaf
              eq_refl eq_refl (or_intror eq_refl)) as [Hshape Hdrawn].
  split; [exact Hshape|]. split; [reflexivity|]. exact (Hdrawn eq_refl).
Defined.

Lemma label_is_second_token_witness :
  descendants Sample.nodes = Some Sample.descs /\
  Sample.descs !! O = Some Sample.root /\
  forallb recognized Sample.descs = true /\
  exists g grp txt,
    Sample.callback (Loaded Sample.pore0) group0 = Some (g, None) /\
    childNodes g !! (length Sample.descs - 1 + 0)%nat = Some grp /\
    childNodes grp !! 1%nat = Some txt /\
    tag txt = "text" /\
    textContent txt = "0".
Proof.
  split; [reflexivity|]. split; [reflexivity|]. split; [reflexivity|].
  exact (label_is_second_token id Z.add Z.div pretty Sample.layout
           Sample.path_of Sample.pore0 Sample.descs 0 Sample.root
           eq_refl eq_refl eq_refl).
Defined.

(** The marker pass stops at a name with neither prefix: the groups get
    their marker paths and styles, no path text is set from there on, and
    no label is appended. *)
Example marker_pass_stops :
  exists g lk a b ma mb,
    Sample.callback (Loaded Sample.other_root) group0
      = Some (g, Some (TypeError "type(d) is undefined")) /\
    childNodes g = [lk; a; b] /\
    childNodes a = [ma] /\ attrs ma !! "d" = None /\
    childNodes b = [mb] /\ attrs mb !! "d" = None /\
    styles mb !! "fill" = Some "#ff0000".
Proof. eexists _, _, _, _, _, _. by repeat split. Qed.

(** C1, as stated, fails on a name with two dots: the label drawn for
    "pore.a.b" is "a", while the text after its first dot is "a.b". *)
Lemma label_is_not_rest_of_name :
  exists g grp txt,
    Sample.callback (Loaded Sample.two_dots) group0 = Some (g, None) /\
    childNodes g !! O = Some grp /\
    childNodes grp !! 1%nat = Some txt /\
    tag txt = "text" /\
    textContent txt = "a" /\
    after_first "." (td_name Sample.two_dots) = Some "a.b" /\
    Some (textContent txt) <> after_first "." (td_name Sample.two_dots).
Proof.
  eexists _, _, _. split; [reflexivity|]. split; [reflexivity|].
  split; [reflexivity|]. by repeat split.
Qed.

Lemma link_ends_at_node_positions_witness :
  descendants Sample.nodes = Some Sample.descs /\
  Sample.descs !! 1%nat = Some Sample.leaf /\
  exists g x p j e lk ng pg c1 c2,
    Sample.callback (Loaded Sample.pore0) group0 = Some (g, x) /\
    parent Sample.leaf = Some p /\ Sample.descs !! j = Some e /\ this e = p /\
    childNodes g !! O = Some lk /\
    childNodes g !! (length Sample.descs - 1 + 1)%nat = Some ng /\
    childNodes g !! (length Sample.descs - 1 + j)%nat = Some pg /\
    attrs lk !! "d"
    = Some (cubic (position id Z.div pretty (this Sample.leaf)) c1 c2
              (position id Z.div pretty p)) /\
    attrs ng !! "transform"
    = Some (translate (position id Z.div pretty (this Sample.leaf))) /\
    attrs pg !! "transform" = Some (translate (position id Z.div pretty p)).
Proof.
  split; [reflexivity|]. split; [reflexivity|].
  exact (link_ends_at_node_positions id Z.add Z.div pretty Sample.layout
           Sample.path_of Sample.pore0 Sample.descs 0 Sample.leaf
           eq_refl eq_refl).
Defined.



Lemma parent_comes_first_witness :
  descendants Sample.nodes = Some Sample.descs /\
  Sample.descs !! 1%nat = Some Sample.leaf /\
  exists j e k,
    (j <= 0)%nat /\ Sample.descs !! j = Some e /\
    parent Sample.leaf = Some (this e) /\
    children (this e) = Some k /\ this Sample.leaf ∈ k.
Proof.
  split; [reflexivity|]. split; [reflexivity|].
  exact (parent_comes_first Sample.layout Sample.pore0 Sample.descs 0
           Sample.leaf eq_refl eq_refl).
Defined.

Lemma marker_styles_witness :
  descendants Sample.other_nodes = Some Sample.other_descs /\
  Sample.other_descs !! 1%nat = Some Sample.other_leaf /\
  hex_color "ff0000" = true /\
  exists g x grp m,
    Sample.callback (Loaded Sample.other_root) group0 = Some (g, x) /\
    childNodes g !! (length Sample.other_descs - 1 + 1)%nat = Some grp /\
    childNodes grp !! O = Some m /\ tag m = "path" /\
    styles m !! "stroke" = Some "black" /\
    styles m !! "stroke-width" = Some "3" /\
    styles m !! "fill" = Some "#ff0000".
Proof.
  split; [reflexivity|]. split; [reflexivity|]. split; [reflexivity|].
  destruct (marker_styles id Z.add Z.div pretty Sample.layout Sample.path_of
              Sample.other_root Sample.other_descs 1 Sample.other_leaf
              eq_refl eq_refl)
    as (g & x & grp & m & Hc & Hg & Hm & Ht & Hs & Hw & Hf).
  exists g, x, grp, m. split; [exact Hc|]. split; [exact Hg|].
  split; [exact Hm|]. split; [exact Ht|]. split; [exact Hs|].
  split; [exact Hw|]. exact (Hf eq_refl).
Defined.

Lemma no_label_after_type_error_witness :
  descendants Sample.other_nodes = Some Sample.other_descs /\
  Sample.other_descs !! 1%nat = Some Sample.other_leaf /\
  Sample.other_descs !! O = Some Sample.other_top /\
  JS.startsWith "x.0" "pore" = false /\
  JS.startsWith "x.0" "throat" = false /\
  exists g grp m,
    Sample.callback (Loaded Sample.other_root) group0
      = Some (g, Some (TypeError "type(d) is undefined")) /\
    childNodes g !! (length Sample.other_descs - 1 + 1)%nat = Some grp /\
    childNodes grp = [m] /\ tag m = "path" /\
    ((0 <= 1)%nat -> attrs m !! "d" = None).
Proof.
  split; [reflexivity|]. split; [reflexivity|]. split; [reflexivity|].
  split; [reflexivity|]. split; [reflexivity|].
  exact (no_label_after_type_error id Z.add Z.div pretty Sample.layout
           Sample.path_of Sample.other_root Sample.other_descs 1
           Sample.other_leaf 0 Sample.other_top
           eq_refl eq_refl eq_refl eq_refl eq_refl).
Defined.

Lemma label_element_witness :
  descendants Sample.nodes = Some Sample.descs /\
  Sample.descs !! 1%nat = Some Sample.leaf /\
  forallb recognized Sample.descs = true /\
  exists g grp m txt,
    Sample.callback (Loaded Sample.pore0) group0 = Some (g, None) /\
    childNodes g !! (length Sample.descs - 1 + 1)%nat = Some grp /\
    childNodes grp = [m; txt] /\ tag m = "path" /\ tag txt = "text" /\
    attrs txt !! "dy" = Some ".35em" /\ attrs txt !! "x" = Some "20" /\
    childNodes txt = [].
Proof.
  split; [reflexivity|]. split; [reflexivity|]. split; [reflexivity|].
  exact (label_element id Z.add Z.div pretty Sample.layout Sample.path_of
           Sample.pore0 Sample.descs 1 Sample.leaf eq_refl eq_refl eq_refl).
Defined.

Lemma label_by_dots_witness :
  descendants Sample.nodes = Some Sample.descs /\
  Sample.descs !! 1%nat = Some Sample.leaf /\
  forallb recognized Sample.descs = true /\
  count_char "." "throat.1" = 1%nat /\
  after_first "." "throat.1" = Some "1" /\
  exists g grp m txt,
    Sample.callback (Loaded Sample.pore0) group0 = Some (g, None) /\
    childNodes g !! (length Sample.descs - 1 + 1)%nat = Some grp /\
    childNodes grp = [m; txt] /\ textContent txt = "1".
Proof.
  split; [reflexivity|]. split; [reflexivity|]. split; [reflexivity|].
  split; [reflexivity|]. split; [reflexivity|].
  destruct (label_by_dots id Z.add Z.div pretty Sample.layout Sample.path_of
              Sample.pore0 Sample.descs 1 Sample.leaf eq_refl eq_refl eq_refl)
    as (g & grp & m & txt & Hc & Hg & Hk & _ & Hone).
  exists g, grp, m, txt. split; [exact Hc|]. split; [exact Hg|].
  split; [exact Hk|]. exact (Hone "1" eq_refl eq_refl).
Defined.

Lemma link_control_points_witness :
  descendants Sample.nodes = Some Sample.descs /\
  Sample.descs !! 1%nat = Some Sample.leaf /\
  exists g x p lk,
    Sample.callback (Loaded Sample.pore0) group0 = Some (g, x) /\
    parent Sample.leaf = Some p /\ childNodes g !! O = Some lk /\
    attrs lk !! "d"
    = Some (cubic (position id Z.div pretty (this Sample.leaf))
              (pretty ((y (this Sample.leaf) / 2 + y p / 2) / 2),
               (position id Z.div pretty (this Sample.leaf)).2)
              (pretty ((y (this Sample.leaf) / 2 + y p / 2) / 2),
               (position id Z.div pretty p).2)
              (position id Z.div pretty p)).
Proof.
  split; [reflexivity|]. split; [reflexivity|].
  exact (link_control_points id Z.add Z.div pretty Sample.layout
           Sample.path_of Sample.pore0 Sample.descs 0 Sample.leaf
           eq_refl eq_refl).
Defined.
